(** * haki/http: handler wrappers and the instrumented response writer

    A shallow embedding of the Go package [http] of rjansen/haki
    (the response writer that records status and size, the wrapper chain
    [Wrap], the wrappers [Error], [Log] and [Audit], and the read side of
    the content negotiation), with the properties of its specification.

    A Go handler receives a writer and a request and acts on the writer only
    through its methods.  Handlers are therefore programs over the calls they
    can make ([Prog]); a wrapper that hands its inner handler a
    [responseWriter] re-interprets the writer calls of that program
    ([through]), and the outermost program runs against the server's own
    writer, the logger, the id generator and the clock ([run]). *)

From Stdlib Require Import ZArith List String Ascii Lia.
From Stdlib.Strings Require Import Byte.
From stdpp Require Import base option gmap strings list.

Local Open Scope Z_scope.
Local Open Scope string_scope.

(** ** Values *)

(** A Go [error]: [err_Error] is what [Error()] returns; [err_tag] tells apart
    two error values that carry the same message. *)
Record error := mkError { err_tag : N; err_Error : string }.

(** Go's [int], 64 bits wide, with its wrap-around. *)
Definition int_min : Z := - 2 ^ 63.
Definition int_max : Z := 2 ^ 63 - 1.
Definition wrap_int (z : Z) : Z := (z + 2 ^ 63) mod 2 ^ 64 - 2 ^ 63.

(** Structured log fields of the logging library [l]. *)
Inductive Field :=
| l_String (k v : string)
| l_Bool (k : string) (b : bool)
| l_Int (k : string) (n : Z)
| l_Duration (k : string) (d : Z)
| l_Err (e : error).

(** [l.WithFields(...)]: a logger is the fields it carries. *)
Record Logger := l_WithFields { logger_fields : list Field }.

Inductive Severity := SevInfo | SevError.

(** Modelled from the spec: the type [Identity], declared outside the sources at
    hand: an opaque bearer token and an open-ended mapping of claim names to
    claim values. *)
Record Identity := mkIdentity { Token : string; Value : gmap string string }.

(** Modelled from the spec: the type [Auditor], declared outside the sources at
    hand: a facade bundling trace id, correlation id, a logger instance and
    the resolved identity. *)
Record Auditor := mkAuditor { TID : string; CID : string; Logger_ : Logger; Identity_ : Identity }.

(** ** Request-scoped storage *)

(** Modelled from the spec: the keys [ContextKeys.*], declared outside the
    sources at hand: trace-id, correlation-id, logger, identity-token, identity,
    auditor.  [KString] is a plain Go string used as a key, as [logHandle] does
    with ["tid"]. *)
Inductive ContextKey :=
| KString (s : string)
| ContextKeys_TID | ContextKeys_CID | ContextKeys_LOG
| ContextKeys_TOKEN | ContextKeys_IDENTITY | ContextKeys_AUDITOR.

Global Instance ContextKey_eq_dec : EqDecision ContextKey.
Proof. solve_decision. Defined.

Inductive CtxValue :=
| VString (s : string)
| VLogger (lg : Logger)
| VIdentity (i : Identity)
| VAuditor (a : Auditor).

(** [context.Context]: a chain of key/value pairs, the newest first. *)
Definition Context_ := list (ContextKey * CtxValue).

Definition context_WithValue (c : Context_) (k : ContextKey) (v : CtxValue) : Context_ :=
  (k, v) :: c.

(** [ctx.Value(k)]: the newest binding of [k]. *)
Fixpoint context_Value (c : Context_) (k : ContextKey) : option CtxValue :=
  match c with
  | [] => None
  | (k', v) :: c' => if decide (k' = k) then Some v else context_Value c' k
  end.

(** [http.Header] is [map[string][]string]. *)
Abbreviation Header := (gmap string (list string)).

Record Request := mkRequest {
  Method : string;
  URL_Path : string;
  ReqHeader : Header;
  ctx : Context_
}.

Definition WithContext (r : Request) (c : Context_) : Request :=
  {| Method := Method r; URL_Path := URL_Path r; ReqHeader := ReqHeader r; ctx := c |}.

(** Modelled from the spec: the helper [set], declared outside the sources at
    hand: each set operation returns a new request value carrying the added
    key, never mutating in place. *)
Definition set (r : Request) (k : ContextKey) (v : CtxValue) : Request :=
  WithContext r (context_WithValue (ctx r) k v).

(** ** Handler programs *)

(** What reaches the server's writer, in order. *)
Inductive SinkEvent :=
| EvHeaderSet (k v : string)
| EvWriteHeader (s : Z)
| EvWrite (b : list byte) (n : Z) (err : option error)
| EvFlush.

Record LogEntry := mkLogEntry {
  le_auditor : option Auditor;
  le_logger : Logger;
  le_severity : Severity;
  le_event : string;
  le_fields : list Field
}.

(** The calls a handler or a wrapper makes. *)
Inductive Op : Type -> Type :=
| W_Header_Set (k v : string) : Op unit          (* w.Header().Set(k, v) *)
| W_Header_Get (k : string) : Op string          (* w.Header().Get(k) *)
| W_WriteHeader (s : Z) : Op unit                (* w.WriteHeader(s) *)
| W_Write (b : list byte) : Op (Z * option error) (* w.Write(b) *)
| W_Flusher : Op bool                            (* _, ok := w.(http.Flusher) *)
| W_Flush : Op unit                              (* w.(http.Flusher).Flush() *)
| Uuid_NewV4 : Op string                         (* uuid.NewV4().String() *)
| Time_Now : Op Z                                (* time.Now() *)
| Logger_Log (lg : Logger) (sev : Severity) (ev : string) (fs : list Field) : Op unit
| Auditor_Log (a : Auditor) (sev : Severity) (ev : string) (fs : list Field) : Op unit.

Inductive Prog (A : Type) : Type :=
| Ret (a : A)
| Vis (X : Type) (e : Op X) (k : X -> Prog A).

Arguments Ret {A} a.
Arguments Vis {A X} e k.

Fixpoint bind {A B : Type} (p : Prog A) (f : A -> Prog B) : Prog B :=
  match p with
  | Ret a => f a
  | Vis e k => Vis e (fun x => bind (k x) f)
  end.

Definition call {X : Type} (e : Op X) : Prog X := Vis e Ret.

Global Instance Prog_ret : MRet Prog := fun A a => Ret a.
Global Instance Prog_bind : MBind Prog := fun A B f p => bind p f.

(** [HTTPHandlerFunc], [HTTPHandlerWrapper] and [http.HandlerFunc]. *)
Definition HTTPHandlerFunc := Request -> Prog (option error).
Definition HTTPHandlerWrapper := HTTPHandlerFunc -> HTTPHandlerFunc.
Definition http_HandlerFunc := Request -> Prog unit.

(** ** The instrumented response writer *)

(** The embedded [http.ResponseWriter] is the writer the surrounding program
    speaks to; the struct keeps [status] and [size]. *)
Record responseWriter := mkResponseWriter { status : Z; size : Z }.

Definition http_StatusOK : Z := 200.
Definition http_StatusInternalServerError : Z := 500.

Definition NewResponseWriter : responseWriter := {| status := 0; size := 0 |}.

Definition Status (w : responseWriter) : Z := status w.
Definition Size (w : responseWriter) : Z := size w.
Definition Written (w : responseWriter) : bool := negb (status w =? 0)%Z.

Definition WriteHeader (s : Z) (w : responseWriter) : Prog (unit * responseWriter) :=
  let w := {| status := s; size := size w |} in
  call (W_WriteHeader s);;
  Ret (tt, w).

Definition Write (b : list byte) (w : responseWriter)
  : Prog ((Z * option error) * responseWriter) :=
  '(_, w) ← (if negb (Written w) then WriteHeader http_StatusOK w else Ret (tt, w));
  '(n, err) ← call (W_Write b);
  let w := {| status := status w; size := wrap_int (size w + n) |} in
  Ret ((n, err), w).

Definition Flush (w : responseWriter) : Prog (unit * responseWriter) :=
  ok ← call W_Flusher;
  if ok : bool then
    '(_, w) ← (if negb (Written w) then WriteHeader http_StatusOK w else Ret (tt, w));
    call W_Flush;;
    Ret (tt, w)
  else Ret (tt, w).

(** How a [responseWriter] answers each call of the handler it is handed to:
    its own methods for the ones it defines, the embedded writer's for
    [Header()], and everything that is not a writer call unchanged.  The type
    assertion to [http.Flusher] succeeds, since [responseWriter] has [Flush]. *)
Definition serve {X : Type} (e : Op X) (w : responseWriter) : Prog (X * responseWriter) :=
  match e in Op X return Prog (X * responseWriter) with
  | W_WriteHeader s => WriteHeader s w
  | W_Write b => Write b w
  | W_Flusher => Ret (true, w)
  | W_Flush => Flush w
  | W_Header_Set k v => x ← call (W_Header_Set k v); Ret (x, w)
  | W_Header_Get k => x ← call (W_Header_Get k); Ret (x, w)
  | Uuid_NewV4 => x ← call Uuid_NewV4; Ret (x, w)
  | Time_Now => x ← call Time_Now; Ret (x, w)
  | Logger_Log lg sev ev fs => x ← call (Logger_Log lg sev ev fs); Ret (x, w)
  | Auditor_Log a sev ev fs => x ← call (Auditor_Log a sev ev fs); Ret (x, w)
  end.

(** [through p w]: the program [p] with [w] as its writer. *)
Fixpoint through {A : Type} (p : Prog A) (w : responseWriter) : Prog (A * responseWriter) :=
  match p with
  | Ret a => Ret (a, w)
  | Vis e k => '(x, w') ← serve e w; through (k x) w'
  end.

(** ** The world a request is served in *)

(** What the server and the libraries answer, which the package only consumes:
    the ids [uuid.NewV4] hands out, the clock readings, what the server's
    writer reports for a write (given all that reached it before), and whether
    that writer is an [http.Flusher]. *)
Record Host := mkHost {
  uuid_String : nat -> string;
  time_at : nat -> Z;
  sink_Write : list SinkEvent -> list byte -> Z * option error;
  sink_Flusher : bool
}.

Record World := mkWorld {
  sink_header : Header;
  sink_events : list SinkEvent;
  log_entries : list LogEntry;
  uuid_count : nat;
  clock_ticks : nat
}.

Definition newline : string := String "010"%char EmptyString.

Section Package.

(** Constants of the root package [haki] and functions of [net/http], none of
    them among the sources at hand. *)
Variables (RequestIDHeader RequestContextHeader : string).
Variable CanonicalMIMEHeaderKey : string -> string.
Variable http_StatusText : Z -> string.
Variable host : Host.

(** [Header.Get] and [Header.Set] of [net/http]. *)
Definition Header_Get (h : Header) (k : string) : string :=
  match h !! CanonicalMIMEHeaderKey k with
  | Some (v :: _) => v
  | _ => EmptyString
  end.

Definition Header_Set (h : Header) (k v : string) : Header :=
  <[CanonicalMIMEHeaderKey k := [v]]> h.

Definition record (ev : SinkEvent) (s : World) : World :=
  {| sink_header := sink_header s; sink_events := sink_events s ++ [ev];
     log_entries := log_entries s; uuid_count := uuid_count s;
     clock_ticks := clock_ticks s |}.

Definition set_header (k v : string) (s : World) : World :=
  {| sink_header := Header_Set (sink_header s) k v;
     sink_events := sink_events s ++ [EvHeaderSet k v];
     log_entries := log_entries s; uuid_count := uuid_count s;
     clock_ticks := clock_ticks s |}.

Definition emit (e : LogEntry) (s : World) : World :=
  {| sink_header := sink_header s; sink_events := sink_events s;
     log_entries := log_entries s ++ [e]; uuid_count := uuid_count s;
     clock_ticks := clock_ticks s |}.

Definition next_uuid (s : World) : World :=
  {| sink_header := sink_header s; sink_events := sink_events s;
     log_entries := log_entries s; uuid_count := S (uuid_count s);
     clock_ticks := clock_ticks s |}.

Definition tick (s : World) : World :=
  {| sink_header := sink_header s; sink_events := sink_events s;
     log_entries := log_entries s; uuid_count := uuid_count s;
     clock_ticks := S (clock_ticks s) |}.

(** One call against the server's writer, the logger, the id generator or the
    clock.  [Flush] on a writer that is no [http.Flusher] cannot be called in
    Go; here it does nothing. *)
Definition step {X : Type} (e : Op X) (s : World) : X * World :=
  match e in Op X return X * World with
  | W_Header_Set k v => (tt, set_header k v s)
  | W_Header_Get k => (Header_Get (sink_header s) k, s)
  | W_WriteHeader c => (tt, record (EvWriteHeader c) s)
  | W_Write b =>
      let res := sink_Write host (sink_events s) b in
      (res, record (EvWrite b res.1 res.2) s)
  | W_Flusher => (sink_Flusher host, s)
  | W_Flush => (tt, if sink_Flusher host then record EvFlush s else s)
  | Uuid_NewV4 => (uuid_String host (uuid_count s), next_uuid s)
  | Time_Now => (time_at host (clock_ticks s), tick s)
  | Logger_Log lg sev ev fs => (tt, emit (mkLogEntry None lg sev ev fs) s)
  | Auditor_Log a sev ev fs => (tt, emit (mkLogEntry (Some a) (Logger_ a) sev ev fs) s)
  end.

Fixpoint run {A : Type} (p : Prog A) (s : World) : A * World :=
  match p with
  | Ret a => (a, s)
  | Vis e k => let '(x, s') := step e s in run (k x) s'
  end.

(** ** net/http and the logging surface *)

(** [http.Error(w, error, code)] of [net/http]: it sets the plain-text content
    type, writes the status, and prints the message and a line feed to [w].
    From Go 1.23 on it first deletes the Content-Length header as well; the
    properties of [Error] and [Audit] below are stated on the calls, the
    statuses and the bodies, and on headers other than [http_Error_headers],
    so that they hold for both. *)
Definition http_Error (msg : string) (code : Z) : Prog unit :=
  call (W_Header_Set "Content-Type" "text/plain; charset=utf-8");;
  call (W_Header_Set "X-Content-Type-Options" "nosniff");;
  call (W_WriteHeader code);;
  call (W_Write (list_byte_of_string (msg +:+ newline)));;
  Ret tt.

(** [time.Since(t)] is [time.Now().Sub(t)]. *)
Definition time_Since (t : Z) : Prog Z :=
  now ← call Time_Now; Ret (now - t).

Definition Logger_Info (lg : Logger) (ev : string) (fs : list Field) : Prog unit :=
  call (Logger_Log lg SevInfo ev fs).
Definition Logger_Error (lg : Logger) (ev : string) (fs : list Field) : Prog unit :=
  call (Logger_Log lg SevError ev fs).

(** Modelled from the spec: the methods [Info] and [Error] of [Auditor], declared
    outside the sources at hand: the same logging surface as a plain logger,
    every entry attributed to the auditor that wrote it. *)
Definition Auditor_Info (a : Auditor) (ev : string) (fs : list Field) : Prog unit :=
  call (Auditor_Log a SevInfo ev fs).
Definition Auditor_Error (a : Auditor) (ev : string) (fs : list Field) : Prog unit :=
  call (Auditor_Log a SevError ev fs).

(** ** The wrapper chain *)

Definition Handler (handler : HTTPHandlerFunc) : http_HandlerFunc :=
  fun r => handler r;; Ret tt.

Definition Wrap (h : HTTPHandlerFunc) (wrappers : list HTTPHandlerWrapper) : http_HandlerFunc :=
  let currentHandler := h in
  let currentHandler :=
    fold_left (fun currentHandler w => w currentHandler) wrappers currentHandler in
  Handler currentHandler.

Definition errorHandle (handler : HTTPHandlerFunc) (r : Request) : Prog (option error) :=
  err ← handler r;
  match err with
  | Some e =>
      http_Error (err_Error e) http_StatusInternalServerError;;
      Ret (Some e)
  | None => Ret None
  end.

Definition Error (handler : HTTPHandlerFunc) : HTTPHandlerFunc :=
  fun r => errorHandle handler r.

Definition logHandle (handler : HTTPHandlerFunc) (r : Request) : Prog (option error) :=
  tid ← call Uuid_NewV4;
  let r := WithContext r (context_WithValue (ctx r) (KString "tid") (VString tid)) in
  let logger := l_WithFields [
    l_String "tid" tid;
    l_String "method" (Method r);
    l_String "path" (URL_Path r)
  ] in
  start ← call Time_Now;
  Logger_Info logger "haki.hhtp.Request" [l_Bool "ctxIsNil" false];;
  let r := set r ContextKeys_LOG (VLogger logger) in
  '(err, rw) ← through (handler r) NewResponseWriter;
  match err with
  | Some e => Logger_Error logger "haki.http.RequestErr" [l_Err e]
  | None => Ret tt
  end;;
  let response := rw in
  requestTime ← time_Since start;
  Logger_Info logger "haki.http.Response" [
    l_String "status" (http_StatusText (Status response));
    l_Int "size" (Size response);
    l_Duration "requestTime" requestTime
  ];;
  Ret err.

Definition Log (handler : HTTPHandlerFunc) : HTTPHandlerFunc :=
  fun r => logHandle handler r.

Definition auditHandle (handler : HTTPHandlerFunc) (r : Request) : Prog (option error) :=
  start ← call Time_Now;
  tid ← call Uuid_NewV4;
  let cid := Header_Get (ReqHeader r) RequestContextHeader in
  call (W_Header_Set RequestIDHeader tid);;
  call (W_Header_Set RequestContextHeader cid);;
  let r := set r ContextKeys_TID (VString tid) in
  let r := set r ContextKeys_CID (VString tid) in
  let identity := {|
    Token := "tanonymous";
    Value := <["Name" := "User Anonymous"]> (<["ID" := "uanonymous"]> ∅)
  |} in
  let logger := l_WithFields [
    l_String "tid" tid;
    l_String "cid" cid;
    l_String "method" (Method r);
    l_String "path" (URL_Path r);
    l_String "token" (Token identity)
  ] in
  let auditor := {| TID := tid; CID := cid; Logger_ := logger; Identity_ := identity |} in
  Auditor_Info auditor "haki.http.Request" [l_Bool "ctxIsNil" false];;
  let r := set r ContextKeys_LOG (VLogger logger) in
  let r := set r ContextKeys_TOKEN (VString (Token identity)) in
  let r := set r ContextKeys_IDENTITY (VIdentity identity) in
  let r := set r ContextKeys_AUDITOR (VAuditor auditor) in
  '(err, rw) ← through (handler r) NewResponseWriter;
  match err with
  | Some e => Auditor_Error auditor "haki.http.RequestErr" [l_Err e]
  | None => Ret tt
  end;;
  let response := rw in
  requestTime ← time_Since start;
  Auditor_Info auditor "haki.http.Response" [
    l_String "status" (http_StatusText (Status response));
    l_Int "size" (Size response);
    l_Duration "requestTime" requestTime
  ];;
  Ret err.

Definition Audit (handler : HTTPHandlerFunc) : HTTPHandlerFunc :=
  Error (fun r => auditHandle handler r).

End Package.

(** ** Content negotiation, read side *)

(** [strings.HasPrefix] and [strings.Contains] on byte strings. *)
Fixpoint strings_HasPrefix (s prefix : string) : bool :=
  match prefix, s with
  | EmptyString, _ => true
  | String _ _, EmptyString => false
  | String c prefix', String d s' => Ascii.eqb c d && strings_HasPrefix s' prefix'
  end.

Fixpoint strings_Contains (s substr : string) : bool :=
  strings_HasPrefix s substr ||
  match s with
  | EmptyString => false
  | String _ s' => strings_Contains s' substr
  end.

(** The request body is a reader: the bytes not read yet, and how often a
    decoder was run on it. *)
Record BodyReader := mkBodyReader { unread : list byte; decodes : nat }.

Section Negotiation.

(** Constants of the packages [haki] and [media/json], none of them among the
    sources at hand. *)
Variables (ContentTypeHeader json_ContentType : string).
Variable ErrInvalidContentType : error.
Variable CanonicalMIMEHeaderKey : string -> string.

(** The value behind the [interface{}] a body is decoded into. *)
Variable Target : Type.

(** [json.NewDecoder(r).Decode(v)] of [encoding/json]: from the unread bytes
    and the target, the error, the bytes it leaves unread and the target
    after decoding. *)
Variable Decoder_Decode : list byte -> Target -> option error * (list byte * Target).

(** [json.Unmarshal] of [media/json]. *)
Definition json_Unmarshal (r : BodyReader) (result : Target)
  : option error * (BodyReader * Target) :=
  let '(err, (rest, result')) := Decoder_Decode (unread r) result in
  (err, ({| unread := rest; decodes := S (decodes r) |}, result')).

Definition ReadJSON (r : Request) (body : BodyReader) (data : Target)
  : option error * (BodyReader * Target) :=
  let '(err, st) := json_Unmarshal body data in
  match err with
  | Some e => (Some e, st)
  | None => (None, st)
  end.

Definition ReadByContentType (r : Request) (body : BodyReader) (data : Target)
  : option error * (BodyReader * Target) :=
  let contentType := Header_Get CanonicalMIMEHeaderKey (ReqHeader r) ContentTypeHeader in
  if strings_Contains contentType json_ContentType then ReadJSON r body data
  else (Some ErrInvalidContentType, (body, data)).

End Negotiation.

(** ** Programs and data the properties are stated with *)

(** A handler that only makes the given sequence of [Write] calls, and
    collects what each call returned. *)
Fixpoint write_all (bs : list (list byte)) : Prog (list (Z * option error)) :=
  match bs with
  | [] => Ret []
  | b :: bs' =>
      res ← call (W_Write b);
      rest ← write_all bs';
      Ret (res :: rest)
  end.

Definition Zsum (l : list Z) : Z := fold_right Z.add 0 l.

(** The calls that set the status a [responseWriter] records. *)
Definition sets_status {X : Type} (e : Op X) : bool :=
  match e with
  | W_WriteHeader _ | W_Write _ | W_Flush => true
  | _ => false
  end.

(** A program that never writes: no [WriteHeader], no [Write], no [Flush]. *)
Fixpoint writes_nothing {A : Type} (p : Prog A) : Prop :=
  match p with
  | Ret _ => True
  | Vis e k => sets_status e = false ∧ ∀ x, writes_nothing (k x)
  end.

(** The nesting the specification words describe: the first wrapper listed
    outermost, [d1 (d2 (... (dn h)))]. *)
Definition first_listed_outermost (h : HTTPHandlerFunc) (ds : list HTTPHandlerWrapper)
  : HTTPHandlerFunc :=
  fold_right (fun d inner => d inner) h ds.

(** The nesting with the last wrapper listed outermost, [dn (... (d1 h))]. *)
Definition last_listed_outermost (h : HTTPHandlerFunc) (ds : list HTTPHandlerWrapper)
  : HTTPHandlerFunc :=
  fold_right (fun d inner => d inner) h (rev ds).

(** A wrapper that announces itself before and after its inner handler. *)
Definition plain_logger : Logger := l_WithFields [].

Definition before_entry (name : string) : LogEntry :=
  mkLogEntry None plain_logger SevInfo (name +:+ " before") [].
Definition after_entry (name : string) : LogEntry :=
  mkLogEntry None plain_logger SevInfo (name +:+ " after") [].

Definition announce (name : string) : HTTPHandlerWrapper :=
  fun inner r =>
    Logger_Info plain_logger (name +:+ " before") [];;
    err ← inner r;
    Logger_Info plain_logger (name +:+ " after") [];;
    Ret err.

Definition emit_all (es : list LogEntry) (s : World) : World :=
  fold_left (fun s e => emit e s) es s.

(** Concrete inputs.  [some_StatusText] has the entries of [http.StatusText]
    used here; an unknown code has the empty text. *)
Definition some_StatusText (code : Z) : string :=
  if (code =? 200)%Z then "OK"
  else if (code =? 500)%Z then "Internal Server Error"
  else EmptyString.

Definition boom : error := mkError 1 "boom".

Definition quiet_host : Host :=
  {| uuid_String := fun n => "trace-" +:+ String.concat EmptyString (replicate n "i");
     time_at := fun n => Z.of_nat n * 10;
     sink_Write := fun _ b => (Z.of_nat (length b), None);
     sink_Flusher := true |}.

Definition fresh_world : World :=
  {| sink_header := ∅; sink_events := []; log_entries := [];
     uuid_count := 0; clock_ticks := 0 |}.

Definition get_request : Request :=
  {| Method := "GET"; URL_Path := "/"; ReqHeader := ∅; ctx := [] |}.

Definition correlated_request : Request :=
  {| Method := "GET"; URL_Path := "/";
     ReqHeader := <["X-Request-Context" := ["abc"]]> ∅; ctx := [] |}.

Definition plain_text_request : Request :=
  {| Method := "POST"; URL_Path := "/";
     ReqHeader := <["Content-Type" := ["text/plain"]]> ∅; ctx := [] |}.

Definition says_h : HTTPHandlerFunc :=
  fun _ => Logger_Info plain_logger "h" [];; Ret None.

Definition fails_with_boom : HTTPHandlerFunc := fun _ => Ret (Some boom).

Definition does_nothing : HTTPHandlerFunc := fun _ => Ret None.

(** A handler that reports, as its error message, what it finds under the
    correlation-id key of the request it is given. *)
Definition reports_CID : HTTPHandlerFunc :=
  fun r =>
    match context_Value (ctx r) ContextKeys_CID with
    | Some (VString s) => Ret (Some (mkError 0 s))
    | _ => Ret None
    end.

(** [Audit] with concrete header names, a failing handler served through it
    once and served through it inside one more [Error], and three bytes
    written in two calls. *)
Definition some_Audit : HTTPHandlerWrapper :=
  Audit "X-Request-Id" "X-Request-Context" id some_StatusText.

Definition boom_audited : option error * World :=
  run id quiet_host (some_Audit fails_with_boom get_request) fresh_world.

Definition boom_audited_in_Error : option error * World :=
  run id quiet_host (Error (some_Audit fails_with_boom) get_request) fresh_world.

Definition three_bytes : list (list byte) := [[Byte.x01]; [Byte.x02; Byte.x03]].

(** ** What the wrappers hand to their inner handler *)

(** The logger and the request [logHandle] builds from the trace id. *)
Definition log_logger (tid : string) (r : Request) : Logger :=
  l_WithFields [l_String "tid" tid; l_String "method" (Method r); l_String "path" (URL_Path r)].

Definition log_request (tid : string) (r : Request) : Request :=
  set (WithContext r (context_WithValue (ctx r) (KString "tid") (VString tid)))
      ContextKeys_LOG (VLogger (log_logger tid r)).

(** The identity, logger, auditor and request [auditHandle] builds from the
    trace id and the correlation id. *)
Definition anonymous : Identity :=
  {| Token := "tanonymous";
     Value := <["Name" := "User Anonymous"]> (<["ID" := "uanonymous"]> ∅) |}.

Definition audit_logger (tid cid : string) (r : Request) : Logger :=
  l_WithFields [l_String "tid" tid; l_String "cid" cid; l_String "method" (Method r);
                l_String "path" (URL_Path r); l_String "token" (Token anonymous)].

Definition audit_auditor (tid cid : string) (r : Request) : Auditor :=
  {| TID := tid; CID := cid; Logger_ := audit_logger tid cid r; Identity_ := anonymous |}.

(** The request-scoped storage after [auditHandle]'s six [set] calls, the
    newest binding first.  The value under the correlation-id key is the
    second argument [stored_cid]. *)
Definition audit_context (tid stored_cid cid : string) (r : Request) : Context_ :=
  (ContextKeys_AUDITOR, VAuditor (audit_auditor tid cid r)) ::
  (ContextKeys_IDENTITY, VIdentity anonymous) ::
  (ContextKeys_TOKEN, VString (Token anonymous)) ::
  (ContextKeys_LOG, VLogger (audit_logger tid cid r)) ::
  (ContextKeys_CID, VString stored_cid) ::
  (ContextKeys_TID, VString tid) :: ctx r.

(** The closing entry both [logHandle] and [auditHandle] write. *)
Definition response_fields (status_text : string) (sz elapsed : Z) : list Field :=
  [l_String "status" status_text; l_Int "size" sz; l_Duration "requestTime" elapsed].

Definition request_error_entry (a : option Auditor) (lg : Logger) (e : error) : LogEntry :=
  mkLogEntry a lg SevError "haki.http.RequestErr" [l_Err e].

(** The statuses and the bodies that reached the server's writer. *)
Definition statuses_written (evs : list SinkEvent) : list Z :=
  flat_map (fun ev => match ev with EvWriteHeader c => [c] | _ => [] end) evs.

Definition bodies_written (evs : list SinkEvent) : list string :=
  flat_map (fun ev => match ev with
                      | EvWrite b _ _ => [string_of_list_byte b]
                      | _ => []
                      end) evs.

(** What one [http.Error] leaves at the server's writer. *)
Definition error_response_events (msg : string) (code n : Z) (werr : option error)
  : list SinkEvent :=
  [EvHeaderSet "Content-Type" "text/plain; charset=utf-8";
   EvHeaderSet "X-Content-Type-Options" "nosniff";
   EvWriteHeader code;
   EvWrite (list_byte_of_string (msg +:+ newline)) n werr].

(** ** The remaining entry points of the package *)

(** The [ServeHTTP] methods of [ErrorHandler], [LogHandler] and
    [AuditHandler]: each runs its core and drops the error. *)
Section Adaptors.

Variables (RequestIDHeader RequestContextHeader : string).
Variable CanonicalMIMEHeaderKey : string -> string.
Variable http_StatusText : Z -> string.

Definition ErrorHandler_ServeHTTP (h : HTTPHandlerFunc) : http_HandlerFunc :=
  fun r => errorHandle h r;; Ret tt.

Definition LogHandler_ServeHTTP (h : HTTPHandlerFunc) : http_HandlerFunc :=
  fun r => logHandle http_StatusText h r;; Ret tt.

Definition AuditHandler_ServeHTTP (h : HTTPHandlerFunc) : http_HandlerFunc :=
  fun r =>
    auditHandle RequestIDHeader RequestContextHeader CanonicalMIMEHeaderKey
      http_StatusText h r;;
    Ret tt.

End Adaptors.

(** The response helpers [Bytes], [JSON], [Status], [Err] and the write side
    of the content negotiation, [WriteByAccept].  They live in a module of
    their own since [Status] is also a method of the response writer. *)
Module Respond.
Section Respond.

(** Constants of the packages [haki] and [media/json], none of them among the
    sources at hand. *)
Variables (ContentTypeHeader AcceptHeader json_ContentType : string).
Variable ErrInvalidAccept : error.
Variable CanonicalMIMEHeaderKey : string -> string.

(** The value behind the [interface{}] a body is encoded from. *)
Variable Target : Type.

(** [json.NewEncoder(w).Encode(v)] of [encoding/json] first encodes [v] into
    a buffer, the encoding and a line feed, or fails without writing. *)
Variable Encoder_buffer : Target -> list byte + error.

(** [json.Marshal] of [media/json]: the encoder writes its buffer to [w] in
    one [Write] and returns the error of that write. *)
Definition json_Marshal (data : Target) : Prog (option error) :=
  match Encoder_buffer data with
  | inr e => Ret (Some e)
  | inl b => '(_, err) ← call (W_Write b); Ret err
  end.

Definition Bytes (status : Z) (result : list byte) : Prog (option error) :=
  call (W_Header_Set ContentTypeHeader "application/octet-stream");;
  call (W_WriteHeader status);;
  '(_, err) ← call (W_Write result);
  match err with
  | Some e => Ret (Some e)
  | None => Ret None
  end.

Definition JSON (status : Z) (result : Target) : Prog (option error) :=
  call (W_Header_Set ContentTypeHeader json_ContentType);;
  call (W_WriteHeader status);;
  err ← json_Marshal result;
  match err with
  | Some e => Ret (Some e)
  | None => Ret None
  end.

Definition Status (status : Z) : Prog (option error) :=
  call (W_WriteHeader status);;
  Ret None.

Definition Err (err : error) : Prog (option error) :=
  http_Error (err_Error err) http_StatusInternalServerError;;
  Ret (Some err).

Definition WriteByAccept (r : Request) (status : Z) (result : Target) : Prog (option error) :=
  let contentType := Header_Get CanonicalMIMEHeaderKey (ReqHeader r) AcceptHeader in
  if strings_Contains contentType json_ContentType then JSON status result
  else Ret (Some ErrInvalidAccept).

End Respond.
End Respond.

(** ** More programs and data the properties are stated with *)

(** A handler that only makes the given sequence of [WriteHeader] calls. *)
Fixpoint write_headers (codes : list Z) : Prog unit :=
  match codes with
  | [] => Ret tt
  | c :: codes' => call (W_WriteHeader c);; write_headers codes'
  end.

(** The byte counts the server's writer reported, in order. *)
Definition counts_reported (evs : list SinkEvent) : list Z :=
  flat_map (fun ev => match ev with EvWrite _ n _ => [n] | _ => [] end) evs.

(** The response headers [http.Error] touches: it sets the last two and, from
    Go 1.23 on, deletes the first. *)
Definition http_Error_headers : list string :=
  ["Content-Length"; "Content-Type"; "X-Content-Type-Options"].

(** A program that leaves the response headers alone: no [Header().Set]. *)
Definition sets_header {X : Type} (e : Op X) : bool :=
  match e with
  | W_Header_Set _ _ => true
  | _ => false
  end.

Fixpoint sets_no_header {A : Type} (p : Prog A) : Prop :=
  match p with
  | Ret _ => True
  | Vis e k => sets_header e = false ∧ ∀ x, sets_no_header (k x)
  end.

(** A failing handler behind [Error] alone. *)
Definition boom_in_Error : option error * World :=
  run id quiet_host (Error fails_with_boom get_request) fresh_world.

(** A failing handler behind [Audit], for a request with a correlation id. *)
Definition boom_audited_correlated : option error * World :=
  run id quiet_host (some_Audit fails_with_boom correlated_request) fresh_world.

(** A program that never calls [WriteHeader(0)]. *)
Definition resets_status {X : Type} (e : Op X) : bool :=
  match e with
  | W_WriteHeader c => (c =? 0)%Z
  | _ => false
  end.

Fixpoint never_resets {A : Type} (p : Prog A) : Prop :=
  match p with
  | Ret _ => True
  | Vis e k => resets_status e = false ∧ ∀ x, never_resets (k x)
  end.

(** The entries [logHandle] and the core of [Audit] write around their inner
    handler. *)
Definition request_entry (a : option Auditor) (lg : Logger) (ev : string) : LogEntry :=
  mkLogEntry a lg SevInfo ev [l_Bool "ctxIsNil" false].

Definition response_entry (a : option Auditor) (lg : Logger) (status_text : string)
    (sz elapsed : Z) : LogEntry :=
  mkLogEntry a lg SevInfo "haki.http.Response" (response_fields status_text sz elapsed).

Definition error_entries (a : option Auditor) (lg : Logger) (err : option error)
  : list LogEntry :=
  match err with
  | Some e => [request_error_entry a lg e]
  | None => []
  end.

(** A handler that writes ["ok"] and then flushes. *)
Definition writes_ok : HTTPHandlerFunc :=
  fun _ =>
    call (W_Write (list_byte_of_string "ok"));;
    call W_Flush;;
    Ret None.

(** A writer that recorded 200 and counted nothing yet. *)
Definition recorded_200 : responseWriter := {| status := 200; size := 0 |}.

(** * Properties *)

Section Properties.

Variables (RequestIDHeader RequestContextHeader : string).
Variable CanonicalMIMEHeaderKey : string -> string.
Variable http_StatusText : Z -> string.
Variable host : Host.

Local Abbreviation exec := (run CanonicalMIMEHeaderKey host).
Local Abbreviation exec_step := (step CanonicalMIMEHeaderKey host).

(** ** Running composed programs *)

Lemma run_bind {A B : Type} (p : Prog A) (f : A -> Prog B) (s : World) :
  exec (p ≫= f) s = exec (f (exec p s).1) (exec p s).2.
Proof.
  revert s. induction p as [a | X e k IH]; intros s.
  - reflexivity.
  - change (exec (Vis e k ≫= f) s)
      with (let '(x, s') := exec_step e s in exec (k x ≫= f) s').
    simpl. destruct (exec_step e s) as [x s']. apply IH.
Qed.

Lemma run_call {X : Type} (e : Op X) (s : World) :
  exec (call e) s = exec_step e s.
Proof. simpl. by destruct (exec_step e s). Qed.

Lemma run_through_bind {A B : Type} (p : Prog A) (f : A -> Prog B)
    (w : responseWriter) (s : World) :
  exec (through (p ≫= f) w) s =
  exec (through (f (exec (through p w) s).1.1) (exec (through p w) s).1.2)
       (exec (through p w) s).2.
Proof.
  revert w s. induction p as [a | X e k IH]; intros w s.
  - reflexivity.
  - change (through (Vis e k ≫= f) w)
      with (serve e w ≫= (fun xw => match xw with (x, w') => through (k x ≫= f) w' end)).
    change (through (Vis e k) w)
      with (serve e w ≫= (fun xw => match xw with (x, w') => through (k x) w' end)).
    rewrite !run_bind.
    destruct (exec (serve e w) s) as [[x w'] s']. simpl. apply IH.
Qed.

Lemma run_through_call {X : Type} (e : Op X) (w : responseWriter) (s : World) :
  exec (through (call e) w) s = exec (serve e w) s.
Proof.
  change (through (call e) w)
    with (serve e w ≫= (fun xw => match xw with (x, w') => Ret (x, w') end)).
  rewrite run_bind. by destruct (exec (serve e w) s) as [[x w'] s'].
Qed.

(** ** The response writer *)

Lemma wrap_int_idem (a n : Z) : wrap_int (wrap_int a + n) = wrap_int (a + n).
Proof.
  unfold wrap_int.
  replace (((a + 2 ^ 63) mod 2 ^ 64 - 2 ^ 63 + n + 2 ^ 63))
    with ((a + 2 ^ 63) mod 2 ^ 64 + n) by lia.
  rewrite Zplus_mod_idemp_l. f_equal. f_equal. lia.
Qed.

Lemma wrap_int_in_range (z : Z) : int_min <= z <= int_max -> wrap_int z = z.
Proof.
  unfold wrap_int, int_min, int_max. intros H.
  rewrite Z.mod_small; lia.
Qed.

Lemma wrap_int_sum (l : list Z) (a : Z) :
  fold_left (fun acc n => wrap_int (acc + n)) l (wrap_int a) = wrap_int (a + Zsum l).
Proof.
  revert a. induction l as [| n l IH]; intros a; simpl.
  - f_equal. lia.
  - rewrite wrap_int_idem, IH. f_equal. lia.
Qed.

Lemma run_Write_written (b : list byte) (w : responseWriter) (s : World) :
  Written w = true ->
  exec (Write b w) s =
  let res := sink_Write host (sink_events s) b in
  ((res, {| status := status w; size := wrap_int (size w + res.1) |}),
   record (EvWrite b res.1 res.2) s).
Proof.
  intros Hw. unfold Write. rewrite Hw. simpl.
  by destruct (sink_Write host (sink_events s) b).
Qed.

Lemma run_Write_fresh (b : list byte) (w : responseWriter) (s : World) :
  Written w = false ->
  exec (Write b w) s =
  let s1 := record (EvWriteHeader http_StatusOK) s in
  let res := sink_Write host (sink_events s1) b in
  ((res, {| status := http_StatusOK; size := wrap_int (size w + res.1) |}),
   record (EvWrite b res.1 res.2) s1).
Proof.
  intros Hw. unfold Write. rewrite Hw. simpl.
  by destruct (sink_Write host _ b).
Qed.

(** Once a status is recorded, a sequence of writes goes to the embedded
    writer as it is, and only the size moves. *)
Lemma write_all_written (bs : list (list byte)) (w : responseWriter) (s : World) :
  Written w = true ->
  exec (through (write_all bs) w) s =
  ((exec (write_all bs) s).1,
    {| status := status w;
       size := fold_left (fun acc n => wrap_int (acc + n))
                 ((exec (write_all bs) s).1.*1) (size w) |},
   (exec (write_all bs) s).2).
Proof.
  revert w s. induction bs as [| b bs IH]; intros w s Hw.
  - simpl. by destruct w.
  - cbn [write_all].
    rewrite run_through_bind, run_through_call. cbn [serve].
    rewrite run_Write_written by done. cbn zeta. cbn [fst snd].
    rewrite run_through_bind, IH by done. cbn [fst snd].
    rewrite !run_bind, run_call. reflexivity.
Qed.

(** The first write on a fresh writer records 200 and sends it on; the writes
    then go to the embedded writer as they are. *)
Lemma write_all_fresh (b : list byte) (bs : list (list byte)) (s : World) :
  exec (through (write_all (b :: bs)) NewResponseWriter) s =
  let direct := exec (call (W_WriteHeader http_StatusOK);; write_all (b :: bs)) s in
  ((direct.1, {| status := http_StatusOK; size := wrap_int (Zsum (direct.1.*1)) |}),
   direct.2).
Proof.
  cbn zeta. rewrite run_bind, run_call. cbn [exec_step fst snd].
  cbn [write_all].
  rewrite run_through_bind, run_through_call. cbn [serve].
  rewrite run_Write_fresh by done. cbn zeta. cbn [fst snd].
  rewrite run_through_bind, write_all_written by done. cbn [fst snd].
  rewrite !run_bind, run_call.
  cbn [exec_step fst snd through run status size fmap list_fmap].
  change (size NewResponseWriter) with 0.
  rewrite wrap_int_sum. reflexivity.
Qed.

(** C3. On a fresh instrumented writer on which [WriteHeader] was never
    called, after the first [Write] (and after every later one) the recorded
    status is exactly 200; [Size] is the sum of the byte counts the embedded
    writer reported, as long as that sum fits Go's [int]; and every [Write]
    returns the count and the error of the embedded writer unchanged, which
    sees exactly [WriteHeader(200)] followed by the same writes. *)
Theorem Write_records_status_and_size (b : list byte) (bs : list (list byte)) (s : World) :
  let direct := exec (call (W_WriteHeader http_StatusOK);; write_all (b :: bs)) s in
  int_min <= Zsum (direct.1.*1) <= int_max ->
  let '((_, w1), _) := exec (through (write_all [b]) NewResponseWriter) s in
  let '((results, w), s') := exec (through (write_all (b :: bs)) NewResponseWriter) s in
  Status w1 = 200 ∧ Status w = 200 ∧
  Size w = Zsum (results.*1) ∧
  (results, s') = direct.
Proof.
  intros direct Hrange.
  rewrite (write_all_fresh b []), (write_all_fresh b bs). cbn zeta.
  fold direct. cbn [Status Size status size].
  rewrite wrap_int_in_range by done.
  repeat split. by destruct direct.
Qed.

(** ** The wrapper chain *)

Lemma run_http_Error (msg : string) (code : Z) (s : World) :
  exec (http_Error msg code) s =
  let s1 := record (EvWriteHeader code)
              (set_header CanonicalMIMEHeaderKey "X-Content-Type-Options" "nosniff"
                 (set_header CanonicalMIMEHeaderKey "Content-Type" "text/plain; charset=utf-8" s)) in
  let body := list_byte_of_string (msg +:+ newline) in
  let res := sink_Write host (sink_events s1) body in
  (tt, record (EvWrite body res.1 res.2) s1).
Proof. reflexivity. Qed.

Lemma run_errorHandle (h : HTTPHandlerFunc) (r : Request) (s : World) :
  exec (errorHandle h r) s =
  match (exec (h r) s).1 with
  | Some e =>
      (Some e,
       (exec (http_Error (err_Error e) http_StatusInternalServerError) (exec (h r) s).2).2)
  | None => (None, (exec (h r) s).2)
  end.
Proof.
  unfold errorHandle. rewrite run_bind.
  destruct (exec (h r) s) as [[e |] s1]; cbn [fst snd]; [| reflexivity].
  rewrite run_bind. reflexivity.
Qed.

(** What one [http.Error] does to the world: four calls on the writer, and
    nothing else. *)
Lemma http_Error_effect (msg : string) (code : Z) (s : World) :
  ∃ n werr,
    sink_events (exec (http_Error msg code) s).2 =
      (sink_events s ++ error_response_events msg code n werr)%list ∧
    sink_header (exec (http_Error msg code) s).2 =
      Header_Set CanonicalMIMEHeaderKey
        (Header_Set CanonicalMIMEHeaderKey (sink_header s)
           "Content-Type" "text/plain; charset=utf-8")
        "X-Content-Type-Options" "nosniff" ∧
    log_entries (exec (http_Error msg code) s).2 = log_entries s ∧
    uuid_count (exec (http_Error msg code) s).2 = uuid_count s ∧
    clock_ticks (exec (http_Error msg code) s).2 = clock_ticks s.
Proof.
  rewrite run_http_Error. cbn zeta. cbn [snd].
  eexists _, _. repeat split.
  cbn [record set_header sink_events]. rewrite <- !app_assoc. reflexivity.
Qed.

(** C4, as the code has it.  When the inner handler returns an error,
    [Error] answers with one [http.Error]: after whatever the handler did, the
    server's writer receives the plain-text content type, exactly one
    [WriteHeader(500)] and exactly one [Write], whose payload is the error's
    message followed by a line feed; nothing else changes, and the same error
    is returned.  When the inner handler returns no error, [Error] returns no
    error and leaves the world, the writer included, as the handler left
    it. *)
Theorem Error_translates_errors (h : HTTPHandlerFunc) (r : Request) (s : World) :
  let '(err, s1) := exec (h r) s in
  let '(err', s') := exec (Error h r) s in
  err' = err ∧
  match err with
  | None => s' = s1
  | Some e =>
      (∃ n werr,
         sink_events s' =
           (sink_events s1 ++
            error_response_events (err_Error e) http_StatusInternalServerError n werr)%list) ∧
      statuses_written (sink_events s') =
        (statuses_written (sink_events s1) ++ [500])%list ∧
      bodies_written (sink_events s') =
        (bodies_written (sink_events s1) ++ [err_Error e +:+ newline])%list ∧
      log_entries s' = log_entries s1 ∧
      uuid_count s' = uuid_count s1 ∧ clock_ticks s' = clock_ticks s1
  end.
Proof.
  unfold Error. rewrite run_errorHandle.
  destruct (exec (h r) s) as [[e |] s1]; cbn [fst snd]; [| done].
  split; [done |].
  destruct (http_Error_effect (err_Error e) http_StatusInternalServerError s1)
    as (n & werr & Hev & _ & Hlog & Hid & Hclock).
  split; [by exists n, werr |]. rewrite Hev.
  unfold statuses_written, bodies_written, error_response_events.
  rewrite !flat_map_app. cbn [flat_map app].
  by rewrite string_of_list_byte_of_string.
Qed.

(** C6. [Wrap] with no wrappers is total: it is [Handler h], which runs [h],
    drops the error [h] returned and leaves every effect of [h] in place. *)
Theorem Wrap_without_wrappers (h : HTTPHandlerFunc) (r : Request) (s : World) :
  Wrap h [] = Handler h ∧
  exec (Wrap h [] r) s = (tt, (exec (h r) s).2).
Proof.
  split; [reflexivity |].
  unfold Wrap, Handler. cbn [fold_left]. rewrite run_bind. reflexivity.
Qed.

Lemma emit_all_app (es fs : list LogEntry) (s : World) :
  emit_all (es ++ fs) s = emit_all fs (emit_all es s).
Proof. unfold emit_all. apply fold_left_app. Qed.

Lemma Wrap_cons (h : HTTPHandlerFunc) (d : HTTPHandlerWrapper) (ds : list HTTPHandlerWrapper) :
  Wrap h (d :: ds) = Wrap (d h) ds.
Proof. reflexivity. Qed.

Lemma run_announce (name : string) (h : HTTPHandlerFunc) (r : Request) (s : World) :
  exec (announce name h r) s =
  ((exec (h r) (emit (before_entry name) s)).1,
   emit (after_entry name) (exec (h r) (emit (before_entry name) s)).2).
Proof.
  unfold announce, Logger_Info. rewrite !run_bind, !run_call. reflexivity.
Qed.

(** C1, as the code has it.  [Wrap] applies the wrappers in list order, each
    around the result of the one before, so the LAST wrapper listed is the
    outermost: [Wrap h [d1; ...; dn]] is [Handler (dn (... (d1 h)))].  With
    wrappers that announce themselves, the before-entries appear from the last
    listed to the first, then the handler runs, then the after-entries appear
    from the first listed to the last. *)
Theorem Wrap_last_listed_outermost :
  (∀ (h : HTTPHandlerFunc) (ds : list HTTPHandlerWrapper),
     Wrap h ds = Handler (last_listed_outermost h ds)) ∧
  (∀ (names : list string) (h : HTTPHandlerFunc) (r : Request) (s : World),
     exec (Wrap h (announce <$> names) r) s =
     (tt, emit_all (after_entry <$> names)
            (exec (h r) (emit_all (before_entry <$> rev names) s)).2)).
Proof.
  split.
  - intros h ds. unfold Wrap, last_listed_outermost.
    by rewrite fold_left_rev_right.
  - intros names. induction names as [| name names IH]; intros h r s.
    + cbn [fmap list_fmap rev emit_all fold_left].
      unfold Wrap, Handler. cbn [fold_left]. rewrite run_bind. reflexivity.
    + cbn [fmap list_fmap]. rewrite Wrap_cons.
      change (list_fmap _ _ announce names) with (announce <$> names).
      rewrite IH, run_announce. cbn [snd rev].
      rewrite fmap_app, emit_all_app. reflexivity.
Qed.
(** ** Logging and audit *)

(** A handler that never writes leaves the [responseWriter] it is handed as it
    was. *)
Lemma through_writes_nothing {A : Type} (p : Prog A) (w : responseWriter) (s : World) :
  writes_nothing p -> (exec (through p w) s).1.2 = w.
Proof.
  revert w s. induction p as [a | X e k IH]; intros w s Hp.
  - reflexivity.
  - destruct Hp as [He Hk].
    change (through (Vis e k) w)
      with (serve e w ≫= (fun xw => match xw with (x, w') => through (k x) w' end)).
    rewrite run_bind.
    assert (Hw : (exec (serve e w) s).1.2 = w).
    { destruct e; try discriminate He; cbn [serve];
        rewrite ?run_bind, ?run_call; reflexivity. }
    destruct (exec (serve e w) s) as [[x w'] s']. cbn [fst snd] in *. subst w'.
    by apply IH.
Qed.

(** [logHandle], run: the trace id and the start time are taken, the request
    entry is written, the inner handler runs with a fresh [responseWriter] and
    the request carrying the logger, an error is logged, and the response
    entry closes. *)
Lemma run_logHandle (h : HTTPHandlerFunc) (r : Request) (s : World) :
  exec (logHandle http_StatusText h r) s =
  let tid := uuid_String host (uuid_count s) in
  let logger := log_logger tid r in
  let start := time_at host (clock_ticks s) in
  let s1 := emit (mkLogEntry None logger SevInfo "haki.hhtp.Request" [l_Bool "ctxIsNil" false])
              (tick (next_uuid s)) in
  let inner := exec (through (h (log_request tid r)) NewResponseWriter) s1 in
  let s2 := match inner.1.1 with
            | Some e => emit (request_error_entry None logger e) inner.2
            | None => inner.2
            end in
  (inner.1.1,
   emit (mkLogEntry None logger SevInfo "haki.http.Response"
           (response_fields (http_StatusText (Status inner.1.2)) (Size inner.1.2)
              (time_at host (clock_ticks s2) - start)))
        (tick s2)).
Proof.
  unfold logHandle, Logger_Info, Logger_Error, time_Since.
  rewrite !run_bind, !run_call. cbn [exec_step fst snd].
  cbn zeta.
  change (set _ ContextKeys_LOG _) with (log_request (uuid_String host (uuid_count s)) r).
  change (l_WithFields _) with (log_logger (uuid_String host (uuid_count s)) r).
  destruct (exec (through _ NewResponseWriter) _) as [[[e |] rw] s2]; reflexivity.
Qed.

(** [auditHandle], run, in the same way.  The request handed to the inner
    handler carries [audit_context] with the trace id in both the trace-id and
    the correlation-id slot. *)
Lemma run_auditHandle (h : HTTPHandlerFunc) (r : Request) (s : World) :
  exec (auditHandle RequestIDHeader RequestContextHeader CanonicalMIMEHeaderKey
          http_StatusText h r) s =
  let start := time_at host (clock_ticks s) in
  let tid := uuid_String host (uuid_count s) in
  let cid := Header_Get CanonicalMIMEHeaderKey (ReqHeader r) RequestContextHeader in
  let auditor := audit_auditor tid cid r in
  let s1 := emit (mkLogEntry (Some auditor) (audit_logger tid cid r) SevInfo
                    "haki.http.Request" [l_Bool "ctxIsNil" false])
              (set_header CanonicalMIMEHeaderKey RequestContextHeader cid
                 (set_header CanonicalMIMEHeaderKey RequestIDHeader tid
                    (next_uuid (tick s)))) in
  let inner := exec (through (h (WithContext r (audit_context tid tid cid r)))
                       NewResponseWriter) s1 in
  let s2 := match inner.1.1 with
            | Some e => emit (request_error_entry (Some auditor) (audit_logger tid cid r) e)
                          inner.2
            | None => inner.2
            end in
  (inner.1.1,
   emit (mkLogEntry (Some auditor) (audit_logger tid cid r) SevInfo "haki.http.Response"
           (response_fields (http_StatusText (Status inner.1.2)) (Size inner.1.2)
              (time_at host (clock_ticks s2) - start)))
        (tick s2)).
Proof.
  unfold auditHandle, Auditor_Info, Auditor_Error, time_Since.
  rewrite !run_bind, !run_call. cbn [exec_step fst snd].
  cbn zeta.
  set (tid := uuid_String host _).
  set (cid := Header_Get _ _ _).
  change (set (set (set (set (set (set r _ _) _ _) _ _) _ _) _ _) _ _)
    with (WithContext r (audit_context tid tid cid r)).
  destruct (exec (through _ NewResponseWriter) _) as [[[e |] rw] s2]; reflexivity.
Qed.

(** C8. [Log] returns exactly the error its inner handler returned, and,
    whether that is an error or not, the last entry it logs is the
    response-sent event with the text of the status the [responseWriter]
    recorded, the number of bytes it counted, and the time elapsed since the
    start. *)
Theorem Log_returns_error_and_logs_response (h : HTTPHandlerFunc) (r : Request) (s : World) :
  let tid := uuid_String host (uuid_count s) in
  let s1 := emit (mkLogEntry None (log_logger tid r) SevInfo "haki.hhtp.Request"
                    [l_Bool "ctxIsNil" false])
              (tick (next_uuid s)) in
  let '((herr, rw), s2) := exec (through (h (log_request tid r)) NewResponseWriter) s1 in
  let '(err, s') := exec (Log http_StatusText h r) s in
  err = herr ∧
  last (log_entries s') =
    Some (mkLogEntry None (log_logger tid r) SevInfo "haki.http.Response"
            (response_fields (http_StatusText (Status rw)) (Size rw)
               (time_at host (clock_ticks s2) - time_at host (clock_ticks s)))) ∧
  clock_ticks s' = S (clock_ticks s2).
Proof.
  intros tid s1. unfold Log. rewrite run_logHandle. cbn zeta. fold tid. fold s1.
  destruct (exec (through _ NewResponseWriter) s1) as [[[e |] rw] s2]; cbn [fst snd];
    (split; [reflexivity |]); cbn [emit log_entries]; rewrite last_snoc; done.
Qed.

(** C10. A fresh [responseWriter] reports status 0, not 200: [Written] is
    false and [Size] is 0.  When the inner handler writes nothing, the recorded
    status stays 0 and the response entries of [Log] and of [Audit]'s core
    carry [StatusText(0)] and size 0. *)
Theorem fresh_writer_reports_status_zero (h : HTTPHandlerFunc) (r : Request) (s : World) :
  (∀ r', writes_nothing (h r')) ->
  Status NewResponseWriter = 0 ∧ Written NewResponseWriter = false ∧
  Size NewResponseWriter = 0 ∧
  (∃ lg elapsed,
     last (log_entries (exec (Log http_StatusText h r) s).2) =
       Some (mkLogEntry None lg SevInfo "haki.http.Response"
               (response_fields (http_StatusText 0) 0 elapsed))) ∧
  (∃ a lg elapsed,
     last (log_entries
             (exec (auditHandle RequestIDHeader RequestContextHeader CanonicalMIMEHeaderKey
                      http_StatusText h r) s).2) =
       Some (mkLogEntry (Some a) lg SevInfo "haki.http.Response"
               (response_fields (http_StatusText 0) 0 elapsed))).
Proof.
  intros Hh. repeat split.
  - unfold Log. rewrite run_logHandle. cbn zeta. cbn [snd emit log_entries].
    rewrite last_snoc, through_writes_nothing by apply Hh.
    eexists _, _. reflexivity.
  - rewrite run_auditHandle. cbn zeta. cbn [snd emit log_entries].
    rewrite last_snoc, through_writes_nothing by apply Hh.
    eexists _, _, _. reflexivity.
Qed.

(** A handler that sets no header leaves the response headers as they
    were, also behind a recording writer. *)
Lemma through_sets_no_header {A : Type} (p : Prog A) (w : responseWriter) (s : World) :
  sets_no_header p -> sink_header (exec (through p w) s).2 = sink_header s.
Proof.
  revert w s. induction p as [a | X e k IH]; intros w s Hp; [reflexivity |].
  destruct Hp as [He Hk].
  change (through (Vis e k) w)
    with (serve e w ≫= (fun xw => match xw with (x, w') => through (k x) w' end)).
  rewrite run_bind.
  assert (Hstep : sink_header (exec (serve e w) s).2 = sink_header s).
  { destruct e; try discriminate He; cbn [serve]; try reflexivity.
    - destruct (Written w) eqn:Hw.
      + by rewrite run_Write_written.
      + by rewrite run_Write_fresh.
    - unfold Flush. rewrite run_bind, run_call. cbn [exec_step fst snd].
      destruct (sink_Flusher host) eqn:Hf; [| reflexivity].
      destruct (Written w); cbn; rewrite Hf; reflexivity. }
  destruct (exec (serve e w) s) as [[x w'] s']. cbn [fst snd] in *.
  rewrite <- Hstep. by apply IH.
Qed.

(** C5. [Audit] sets the trace-id response header to the id just generated
    (non-empty, as the generator's ids are) and the correlation-id response
    header to what the request's correlation-id header holds, the empty string
    when the request has none.  These are the only two calls it makes on the
    writer before the inner handler runs, and after the handler it makes none
    but the error response of its own [Error], which leaves both headers as
    they are: at the end of the request the two headers are as the handler
    left them, and for a handler that sets no header, failing or not, they are
    the trace id and the inbound correlation id. *)
Theorem Audit_sets_response_headers (r : Request) (s : World) :
  CanonicalMIMEHeaderKey RequestIDHeader ≠ CanonicalMIMEHeaderKey RequestContextHeader ->
  (∀ n, uuid_String host n ≠ EmptyString) ->
  Forall (fun k => CanonicalMIMEHeaderKey k ≠ CanonicalMIMEHeaderKey RequestIDHeader ∧
                   CanonicalMIMEHeaderKey k ≠ CanonicalMIMEHeaderKey RequestContextHeader)
         http_Error_headers ->
  let tid := uuid_String host (uuid_count s) in
  let cid := Header_Get CanonicalMIMEHeaderKey (ReqHeader r) RequestContextHeader in
  let audit := Audit RequestIDHeader RequestContextHeader CanonicalMIMEHeaderKey
                 http_StatusText in
  ∃ r1 s1,
    (∀ h, (exec (audit h r) s).1 = (exec (through (h r1) NewResponseWriter) s1).1.1) ∧
    tid ≠ EmptyString ∧
    Header_Get CanonicalMIMEHeaderKey (sink_header s1) RequestIDHeader = tid ∧
    Header_Get CanonicalMIMEHeaderKey (sink_header s1) RequestContextHeader = cid ∧
    (ReqHeader r !! CanonicalMIMEHeaderKey RequestContextHeader = None -> cid = EmptyString) ∧
    sink_events s1 =
      (sink_events s ++ [EvHeaderSet RequestIDHeader tid;
                         EvHeaderSet RequestContextHeader cid])%list ∧
    (∀ h,
       let inner := exec (through (h r1) NewResponseWriter) s1 in
       let final := (exec (audit h r) s).2 in
       match inner.1.1 with
       | None => sink_events final = sink_events inner.2
       | Some e =>
           ∃ n werr,
             sink_events final =
               (sink_events inner.2 ++
                error_response_events (err_Error e) http_StatusInternalServerError
                  n werr)%list
       end ∧
       Header_Get CanonicalMIMEHeaderKey (sink_header final) RequestIDHeader =
         Header_Get CanonicalMIMEHeaderKey (sink_header inner.2) RequestIDHeader ∧
       Header_Get CanonicalMIMEHeaderKey (sink_header final) RequestContextHeader =
         Header_Get CanonicalMIMEHeaderKey (sink_header inner.2) RequestContextHeader) ∧
    (∀ h,
       (∀ r', sets_no_header (h r')) ->
       let final := (exec (audit h r) s).2 in
       Header_Get CanonicalMIMEHeaderKey (sink_header final) RequestIDHeader = tid ∧
       Header_Get CanonicalMIMEHeaderKey (sink_header final) RequestContextHeader = cid).
Proof.
  intros Hne Hid Herr tid cid audit.
  apply Forall_cons in Herr as [_ Herr].
  apply Forall_cons in Herr as [[Hct_id Hct_ctx] Herr].
  apply Forall_cons in Herr as [[Hxo_id Hxo_ctx] _].
  set (r1 := WithContext r (audit_context tid tid cid r)).
  set (s1 := emit (mkLogEntry (Some (audit_auditor tid cid r)) (audit_logger tid cid r)
                     SevInfo "haki.http.Request" [l_Bool "ctxIsNil" false])
               (set_header CanonicalMIMEHeaderKey RequestContextHeader cid
                  (set_header CanonicalMIMEHeaderKey RequestIDHeader tid
                     (next_uuid (tick s))))).
  assert (Htid : Header_Get CanonicalMIMEHeaderKey (sink_header s1) RequestIDHeader = tid).
  { unfold s1. cbn [emit set_header sink_header]. unfold Header_Get, Header_Set.
    rewrite lookup_insert_ne by done. by rewrite lookup_insert_eq. }
  assert (Hcid : Header_Get CanonicalMIMEHeaderKey (sink_header s1) RequestContextHeader = cid).
  { unfold s1. cbn [emit set_header sink_header]. unfold Header_Get at 1, Header_Set.
    by rewrite lookup_insert_eq. }
  assert (Hfinal : ∀ h,
    exec (audit h r) s =
    (let inner := exec (through (h r1) NewResponseWriter) s1 in
     let core := (exec (auditHandle RequestIDHeader RequestContextHeader
                          CanonicalMIMEHeaderKey http_StatusText h r) s).2 in
     match inner.1.1 with
     | Some e => (Some e, (exec (http_Error (err_Error e) http_StatusInternalServerError)
                             core).2)
     | None => (None, core)
     end) ∧
    sink_events (exec (auditHandle RequestIDHeader RequestContextHeader
                         CanonicalMIMEHeaderKey http_StatusText h r) s).2 =
      sink_events (exec (through (h r1) NewResponseWriter) s1).2 ∧
    sink_header (exec (auditHandle RequestIDHeader RequestContextHeader
                         CanonicalMIMEHeaderKey http_StatusText h r) s).2 =
      sink_header (exec (through (h r1) NewResponseWriter) s1).2).
  { intros h. unfold audit, Audit, Error. rewrite run_errorHandle, run_auditHandle.
    cbn zeta. fold tid cid r1 s1. cbn [fst snd].
    destruct (exec (through (h r1) NewResponseWriter) s1) as [[[e |] w'] s'];
      cbn [fst snd]; done. }
  assert (Hkeep : ∀ (hd : Header) k,
    CanonicalMIMEHeaderKey "Content-Type" ≠ CanonicalMIMEHeaderKey k ->
    CanonicalMIMEHeaderKey "X-Content-Type-Options" ≠ CanonicalMIMEHeaderKey k ->
    Header_Get CanonicalMIMEHeaderKey
      (Header_Set CanonicalMIMEHeaderKey
         (Header_Set CanonicalMIMEHeaderKey hd "Content-Type" "text/plain; charset=utf-8")
         "X-Content-Type-Options" "nosniff") k =
    Header_Get CanonicalMIMEHeaderKey hd k).
  { intros hd k H1 H2. unfold Header_Get, Header_Set.
    by rewrite !lookup_insert_ne. }
  assert (Hafter : ∀ h,
    let inner := exec (through (h r1) NewResponseWriter) s1 in
    let final := (exec (audit h r) s).2 in
    match inner.1.1 with
    | None => sink_events final = sink_events inner.2
    | Some e =>
        ∃ n werr,
          sink_events final =
            (sink_events inner.2 ++
             error_response_events (err_Error e) http_StatusInternalServerError
               n werr)%list
    end ∧
    Header_Get CanonicalMIMEHeaderKey (sink_header final) RequestIDHeader =
      Header_Get CanonicalMIMEHeaderKey (sink_header inner.2) RequestIDHeader ∧
    Header_Get CanonicalMIMEHeaderKey (sink_header final) RequestContextHeader =
      Header_Get CanonicalMIMEHeaderKey (sink_header inner.2) RequestContextHeader).
  { intros h inner final. unfold final.
    destruct (Hfinal h) as (-> & Hev & Hhd). cbn zeta. fold inner in Hev, Hhd |- *.
    destruct inner.1.1 as [e |]; cbn [snd].
    - destruct (http_Error_effect (err_Error e) http_StatusInternalServerError
                  (exec (auditHandle RequestIDHeader RequestContextHeader
                           CanonicalMIMEHeaderKey http_StatusText h r) s).2)
        as (n & werr & Hev' & Hhd' & _).
      rewrite Hev', Hhd', Hev, Hhd, !Hkeep by done.
      split; [by exists n, werr | done].
    - by rewrite Hev, Hhd. }
  exists r1, s1.
  split; [| split; [apply Hid |]].
  { intros h. destruct (Hfinal h) as (-> & _). cbn zeta.
    destruct (exec (through (h r1) NewResponseWriter) s1).1.1; reflexivity. }
  split; [exact Htid |]. split; [exact Hcid |].
  split; [intros Hnone; unfold cid, Header_Get; by rewrite Hnone |].
  split; [unfold s1; cbn [emit set_header sink_events next_uuid tick];
          by rewrite <- app_assoc |].
  split; [exact Hafter |].
  intros h Hh final. destruct (Hafter h) as (_ & Hid' & Hctx'). fold final in Hid', Hctx'.
  rewrite Hid', Hctx', through_sets_no_header by apply Hh. done.
Qed.

(** C9, as the code has it.  [Audit h] is [Error] around the audit core, so
    when it returns an error the last thing the writer received is the error
    response.  [Error (Audit h)] returns the same error, and is the same when
    there is none; when there is one, it writes the error response a second
    time. *)
Theorem Audit_is_Error_of_core (h : HTTPHandlerFunc) (r : Request) (s : World) :
  let audit := Audit RequestIDHeader RequestContextHeader CanonicalMIMEHeaderKey
                 http_StatusText in
  audit h = Error (fun r => auditHandle RequestIDHeader RequestContextHeader
                              CanonicalMIMEHeaderKey http_StatusText h r) ∧
  let '(err, s1) := exec (audit h r) s in
  match err with
  | None => exec (Error (audit h) r) s = (None, s1)
  | Some e =>
      (∃ before n werr,
         sink_events s1 =
           (before ++ error_response_events (err_Error e)
                        http_StatusInternalServerError n werr)%list) ∧
      ∃ n werr s2,
        exec (Error (audit h) r) s = (Some e, s2) ∧
        sink_events s2 =
          (sink_events s1 ++ error_response_events (err_Error e)
                               http_StatusInternalServerError n werr)%list
  end.
Proof.
  intros audit. split; [reflexivity |].
  set (core := fun r => auditHandle RequestIDHeader RequestContextHeader
                          CanonicalMIMEHeaderKey http_StatusText h r).
  pose proof (run_errorHandle (audit h) r s) as Houter.
  pose proof (run_errorHandle core r s) as Hinner.
  change (errorHandle (audit h) r) with (Error (audit h) r) in Houter.
  change (errorHandle core r) with (audit h r) in Hinner.
  rewrite Houter, Hinner. clear Houter Hinner.
  destruct (exec (core r) s) as [[e |] s0]; cbn [fst snd]; [| reflexivity].
  destruct (http_Error_effect (err_Error e) http_StatusInternalServerError s0)
    as (n & werr & Hev & _).
  split; [by eexists _, _, _ |].
  destruct (http_Error_effect (err_Error e) http_StatusInternalServerError
              (exec (http_Error (err_Error e) http_StatusInternalServerError) s0).2)
    as (n' & werr' & Hev' & _).
  by eexists _, _, _.
Qed.
End Properties.

(** ** Content negotiation *)

Section NegotiationProperties.

Variables (ContentTypeHeader json_ContentType : string).
Variable ErrInvalidContentType : error.
Variable CanonicalMIMEHeaderKey : string -> string.
Variable Target : Type.
Variable Decoder_Decode : list byte -> Target -> option error * (list byte * Target).

Lemma strings_HasPrefix_spec (s prefix : string) :
  strings_HasPrefix s prefix = true ↔ ∃ rest, s = prefix +:+ rest.
Proof.
  revert s. induction prefix as [| c prefix IH]; intros s.
  - destruct s; simpl; split; eauto.
  - destruct s as [| d s]; simpl.
    + split; [discriminate | intros [rest H]; discriminate].
    + rewrite andb_true_iff, Ascii.eqb_eq, IH. split.
      * intros [-> [rest ->]]. eauto.
      * intros [rest H]. injection H as -> ->. eauto.
Qed.

Lemma strings_Contains_spec (s substr : string) :
  strings_Contains s substr = true ↔ ∃ a b, s = a +:+ substr +:+ b.
Proof.
  induction s as [| c s IH].
  - cbn [strings_Contains]. rewrite orb_false_r, strings_HasPrefix_spec. split.
    + intros [rest H]. by exists EmptyString, rest.
    + intros [[| ? a] [b H]]; [eauto | discriminate].
  - cbn [strings_Contains]. rewrite orb_true_iff, strings_HasPrefix_spec, IH. split.
    + intros [[rest H] | (a & b & H)].
      * by exists EmptyString, rest.
      * exists (String c a), b. simpl. by rewrite H.
    + intros [[| d a] [b H]].
      * left. by exists b.
      * right. injection H as -> ->. eauto.
Qed.

(** C7. [ReadByContentType] hands the body to the JSON decoder exactly when
    the request's Content-Type header contains the JSON content type as a
    substring, and then returns what [json.Unmarshal] returns; otherwise it
    returns the unsupported-content-type error, the body is not read and the
    decode target is as it was. *)
Theorem ReadByContentType_dispatch (r : Request) (body : BodyReader) (data : Target) :
  let contentType := Header_Get CanonicalMIMEHeaderKey (ReqHeader r) ContentTypeHeader in
  let json_in := ∃ a b, contentType = a +:+ json_ContentType +:+ b in
  let result := ReadByContentType ContentTypeHeader json_ContentType ErrInvalidContentType
                  CanonicalMIMEHeaderKey Target Decoder_Decode r body data in
  (json_in ↔ decodes result.2.1 = S (decodes body)) ∧
  (json_in -> result = json_Unmarshal Target Decoder_Decode body data) ∧
  (¬ json_in ->
     result.1 = Some ErrInvalidContentType ∧ result.2.1 = body ∧ result.2.2 = data).
Proof.
  intros contentType json_in result.
  assert (Hdec : strings_Contains contentType json_ContentType = true ↔ json_in)
    by apply strings_Contains_spec.
  unfold result, ReadByContentType. fold contentType.
  assert (Hjson : ReadJSON Target Decoder_Decode r body data =
                  json_Unmarshal Target Decoder_Decode body data).
  { unfold ReadJSON. by destruct (json_Unmarshal _ _ _ _) as [[e |] st]. }
  assert (Hcount : decodes (json_Unmarshal Target Decoder_Decode body data).2.1 =
                   S (decodes body)).
  { unfold json_Unmarshal. by destruct (Decoder_Decode _ _) as [err [rest data']]. }
  destruct (strings_Contains contentType json_ContentType).
  - rewrite Hjson. split; [| split]; [| done |].
    + split; [done | intros _; by apply Hdec].
    + intros Hno. destruct Hno. by apply Hdec.
  - cbn [fst snd]. split; [| split]; [| | done].
    + split; [intros Hin; apply Hdec in Hin; discriminate | lia].
    + intros Hin. apply Hdec in Hin. discriminate.
Qed.

End NegotiationProperties.

(** * Concrete requests *)

(** C1, as the specification words it, fails: with two announcing wrappers
    [d1] and [d2] around a handler that logs ["h"], [d2] announces itself
    first and last, so [Wrap] is not the nesting with the first wrapper
    listed outermost. *)
Lemma Wrap_first_listed_not_outermost :
  le_event <$> log_entries
    (run id quiet_host (Wrap says_h [announce "d1"; announce "d2"] get_request)
       fresh_world).2 =
    ["d2 before"; "d1 before"; "h"; "d1 after"; "d2 after"] ∧
  Wrap says_h [announce "d1"; announce "d2"] ≠
    Handler (first_listed_outermost says_h [announce "d1"; announce "d2"]).
Proof.
  split; [reflexivity |].
  intros H.
  apply (f_equal (fun f => le_event <$> log_entries (run id quiet_host (f get_request) fresh_world).2)) in H.
  vm_compute in H. discriminate H.
Qed.

(** C2 at work: the request-scoped storage [auditHandle] hands to the inner
    handler holds the trace id under the trace-id key and, again, the trace id
    under the correlation-id key: the second [set] passes [tid] where the
    correlation id read from the header was meant.  For a request whose
    correlation header is ["abc"], a handler reading the correlation-id key
    finds the trace id ["trace-"] instead. *)
Theorem auditHandle_stores_trace_id_as_correlation_id :
  (∀ RequestIDHeader RequestContextHeader CanonicalMIMEHeaderKey http_StatusText host r s,
     let tid := uuid_String host (uuid_count s) in
     let cid := Header_Get CanonicalMIMEHeaderKey (ReqHeader r) RequestContextHeader in
     let r1 := WithContext r (audit_context tid tid cid r) in
     (∃ s1, ∀ h,
        (run CanonicalMIMEHeaderKey host
           (auditHandle RequestIDHeader RequestContextHeader CanonicalMIMEHeaderKey
              http_StatusText h r) s).1 =
        (run CanonicalMIMEHeaderKey host (through (h r1) NewResponseWriter) s1).1.1) ∧
     context_Value (ctx r1) ContextKeys_TID = Some (VString tid) ∧
     context_Value (ctx r1) ContextKeys_CID = Some (VString tid)) ∧
  Header_Get id (ReqHeader correlated_request) "X-Request-Context" = "abc" ∧
  (run id quiet_host
     (auditHandle "X-Request-Id" "X-Request-Context" id some_StatusText
        reports_CID correlated_request) fresh_world).1 =
    Some (mkError 0 "trace-").
Proof.
  split; [| split; reflexivity].
  intros RID RCH canon text host r s tid cid r1. split; [| split; reflexivity].
  eexists. intros h. rewrite run_auditHandle. cbn zeta. cbn [fst]. reflexivity.
Qed.

(** C4, as the specification words it, fails: for a handler that fails with
    ["boom"], the one body [Error] writes is ["boom"] followed by a line feed,
    which is not the error's message. *)
Lemma Error_body_is_message_and_line_feed :
  boom_in_Error.1 = Some boom ∧
  statuses_written (sink_events boom_in_Error.2) = [500] ∧
  bodies_written (sink_events boom_in_Error.2) = ["boom" +:+ newline] ∧
  bodies_written (sink_events boom_in_Error.2) ≠ [err_Error boom].
Proof.
  repeat split. intros H. vm_compute in H. discriminate H.
Qed.

(** C9, as the specification words it, fails: when the audited handler
    returns an error, [Error (Audit h)] does not behave as [Audit h]; the
    writer receives the status 500 and the body twice. *)
Lemma Error_around_Audit_writes_twice :
  boom_audited_in_Error ≠ boom_audited ∧
  statuses_written (sink_events boom_audited.2) = [500] ∧
  bodies_written (sink_events boom_audited.2) = ["boom" +:+ newline] ∧
  statuses_written (sink_events boom_audited_in_Error.2) = [500; 500] ∧
  bodies_written (sink_events boom_audited_in_Error.2) =
    ["boom" +:+ newline; "boom" +:+ newline].
Proof.
  split; [| repeat split].
  intros H. apply (f_equal (fun res => statuses_written (sink_events res.2))) in H.
  vm_compute in H. discriminate H.
Qed.

(** Two writes, of one and of two bytes, on a fresh writer over a sink that
    takes every byte: status 200, size 3. *)
Lemma Write_records_status_and_size_witness :
  int_min <=
    Zsum ((run id quiet_host (call (W_WriteHeader http_StatusOK);; write_all three_bytes)
             fresh_world).1.*1) <= int_max ∧
  Status (run id quiet_host (through (write_all three_bytes) NewResponseWriter)
            fresh_world).1.2 = 200 ∧
  Size (run id quiet_host (through (write_all three_bytes) NewResponseWriter)
          fresh_world).1.2 = 3.
Proof.
  assert (Hrange : int_min <=
            Zsum ((run id quiet_host
                     (call (W_WriteHeader http_StatusOK);; write_all three_bytes)
                     fresh_world).1.*1) <= int_max)
    by (vm_compute; split; discriminate).
  split; [exact Hrange |].
  pose proof (Write_records_status_and_size id quiet_host
                [Byte.x01] [[Byte.x02; Byte.x03]] fresh_world Hrange) as W.
  change ([Byte.x01] :: [[Byte.x02; Byte.x03]]) with three_bytes in W.
  destruct (run id quiet_host (through (write_all [[Byte.x01]]) NewResponseWriter)
              fresh_world) as [[res1 w1] s1].
  destruct (run id quiet_host (through (write_all three_bytes) NewResponseWriter)
              fresh_world) as [[results w] s'].
  destruct W as (_ & Hstatus & Hsize & Hsame).
  cbn [fst snd]. split; [exact Hstatus |].
  rewrite Hsize. apply (f_equal fst) in Hsame. cbn [fst] in Hsame.
  rewrite Hsame. reflexivity.
Defined.

(** A request with a correlation id through [Audit], with concrete header
    names and a handler that fails without touching the writer: the response
    carries the trace id and the inbound correlation id. *)
Lemma Audit_sets_response_headers_witness :
  id "X-Request-Id" ≠ id "X-Request-Context" ∧
  (∀ n, uuid_String quiet_host n ≠ EmptyString) ∧
  Forall (fun k => id k ≠ id "X-Request-Id" ∧ id k ≠ id "X-Request-Context")
         http_Error_headers ∧
  (∀ r', sets_no_header (fails_with_boom r')) ∧
  Header_Get id (sink_header boom_audited_correlated.2) "X-Request-Id" = "trace-" ∧
  Header_Get id (sink_header boom_audited_correlated.2) "X-Request-Context" = "abc".
Proof.
  assert (Hne : id "X-Request-Id" ≠ id "X-Request-Context") by discriminate.
  assert (Hid : ∀ n, uuid_String quiet_host n ≠ EmptyString) by (intros n; discriminate).
  assert (Herr : Forall (fun k => id k ≠ id "X-Request-Id" ∧ id k ≠ id "X-Request-Context")
                        http_Error_headers)
    by (repeat constructor; discriminate).
  assert (Hh : ∀ r', sets_no_header (fails_with_boom r')) by (intros r'; exact I).
  split; [exact Hne |]. split; [exact Hid |]. split; [exact Herr |]. split; [exact Hh |].
  destruct (Audit_sets_response_headers "X-Request-Id" "X-Request-Context" id
              some_StatusText quiet_host correlated_request fresh_world Hne Hid Herr)
    as (r1 & s1 & _ & _ & _ & _ & _ & _ & _ & Hend).
  exact (Hend fails_with_boom Hh).
Defined.

(** A handler that does nothing at all. *)
Lemma fresh_writer_reports_status_zero_witness :
  (∀ r', writes_nothing (does_nothing r')) ∧
  ∃ lg elapsed,
    last (log_entries (run id quiet_host (Log some_StatusText does_nothing get_request)
                         fresh_world).2) =
      Some (mkLogEntry None lg SevInfo "haki.http.Response"
              (response_fields EmptyString 0 elapsed)).
Proof.
  assert (Hquiet : ∀ r', writes_nothing (does_nothing r')) by (intros r'; exact I).
  split; [exact Hquiet |].
  destruct (fresh_writer_reports_status_zero "X-Request-Id" "X-Request-Context" id
              some_StatusText quiet_host does_nothing get_request fresh_world Hquiet)
    as (_ & _ & _ & Hlog & _).
  exact Hlog.
Defined.

(** Scenario B: a request with [Content-Type: text/plain] is refused with the
    unsupported-content-type error, and neither the body nor the target is
    touched. *)
Example ReadByContentType_text_plain (body : BodyReader) (data : nat)
    (decode : list byte -> nat -> option error * (list byte * nat)) :
  ReadByContentType "Content-Type" "application/json" (mkError 7 "unsupported content type")
    id nat decode plain_text_request body data =
  (Some (mkError 7 "unsupported content type"), (body, data)).
Proof. reflexivity. Qed.

(** Scenario C: the chain [Log], [Error] around a handler that fails with
    ["boom"].  [Wrap] puts [Error], listed last, outermost: the response is
    500 with body ["boom"] and a line feed, the log holds the request, the
    error and the response entry, and the response entry, written by [Log]
    inside [Error], carries the text of status 0. *)
Example Wrap_Log_Error_boom :
  ∀ final,
    final = (run id quiet_host
               (Wrap fails_with_boom [Log some_StatusText; Error] get_request)
               fresh_world).2 ->
    statuses_written (sink_events final) = [500] ∧
    bodies_written (sink_events final) = ["boom" +:+ newline] ∧
    le_event <$> log_entries final =
      ["haki.hhtp.Request"; "haki.http.RequestErr"; "haki.http.Response"] ∧
    (head ∘ le_fields) <$> last (log_entries final) =
      Some (Some (l_String "status" EmptyString)).
Proof. intros final ->. repeat split. Qed.

(** * Further properties of the writer, the wrappers and the helpers *)

Section WriterProperties.

Variable CanonicalMIMEHeaderKey : string -> string.
Variable host : Host.

Local Abbreviation exec := (run CanonicalMIMEHeaderKey host).
Local Abbreviation exec_step := (step CanonicalMIMEHeaderKey host).

Lemma run_WriteHeader (c : Z) (w : responseWriter) (s : World) :
  exec (WriteHeader c w) s =
  ((tt, {| status := c; size := size w |}), record (EvWriteHeader c) s).
Proof. reflexivity. Qed.

Lemma last_cons_default (c : Z) (codes : list Z) (d : Z) :
  List.last (c :: codes) d = List.last codes c.
Proof.
  revert c d. induction codes as [| c' codes IH]; intros c d; [reflexivity |].
  change (List.last (c :: c' :: codes) d) with (List.last (c' :: codes) d).
  by rewrite !IH.
Qed.

Lemma run_through_write_headers (codes : list Z) (w : responseWriter) (s : World) :
  exec (through (write_headers codes) w) s =
  ((tt, {| status := List.last codes (status w); size := size w |}),
   fold_left (fun s c => record (EvWriteHeader c) s) codes s).
Proof.
  revert w s. induction codes as [| c codes IH]; intros w s.
  - by destruct w.
  - cbn [write_headers].
    rewrite run_through_bind, run_through_call. cbn [serve].
    rewrite run_WriteHeader. cbn [fst snd]. rewrite IH. cbn [status size fold_left].
    by rewrite last_cons_default.
Qed.

Lemma record_all_events (codes : list Z) (s : World) :
  sink_events (fold_left (fun s c => record (EvWriteHeader c) s) codes s) =
  (sink_events s ++ (EvWriteHeader <$> codes))%list ∧
  sink_header (fold_left (fun s c => record (EvWriteHeader c) s) codes s) = sink_header s ∧
  log_entries (fold_left (fun s c => record (EvWriteHeader c) s) codes s) = log_entries s.
Proof.
  revert s. induction codes as [| c codes IH]; intros s; cbn [fold_left fmap list_fmap].
  - by rewrite app_nil_r.
  - destruct (IH (record (EvWriteHeader c) s)) as (-> & -> & ->).
    cbn [record sink_events sink_header log_entries]. by rewrite <- app_assoc.
Qed.

(** X1. [WriteHeader] has no guard against repeated calls: of any sequence
    of calls the writer records the last code, and every call is passed on to
    the embedded writer, in order; the size is not touched. *)
Theorem WriteHeader_records_last_and_forwards_all
    (c : Z) (codes : list Z) (w : responseWriter) (s : World) :
  let '((_, w'), s') := exec (through (write_headers (c :: codes)) w) s in
  Status w' = List.last codes c ∧ Size w' = Size w ∧
  sink_events s' = (sink_events s ++ (EvWriteHeader <$> c :: codes))%list ∧
  sink_header s' = sink_header s ∧ log_entries s' = log_entries s.
Proof.
  rewrite run_through_write_headers.
  destruct (record_all_events (c :: codes) s) as (Hev & Hhd & Hlog).
  cbn [Status Size status size]. rewrite last_cons_default. done.
Qed.

(** [Write] on a writer that recorded a status. *)
Lemma run_through_write_all_events (bs : list (list byte)) (s : World) :
  statuses_written (sink_events (exec (write_all bs) s).2) =
  statuses_written (sink_events s).
Proof.
  revert s. induction bs as [| b bs IH]; intros s; [reflexivity |].
  cbn [write_all]. rewrite !run_bind, run_call. cbn [exec_step fst snd run].
  rewrite IH. cbn [record sink_events]. unfold statuses_written.
  rewrite flat_map_app. cbn [flat_map]. by rewrite !app_nil_r.
Qed.

(** X2. An explicit status switches the default off: after [WriteHeader(c)]
    with [c] other than 0, writes record no status of their own.  The recorded
    status stays [c], the embedded writer receives [c] and no other status, and
    the writes reach it as they are.  With [c = 0] the writer still counts as
    unwritten, so the first write adds the default: the embedded writer
    receives the status 0 and then 200, and 200 is recorded. *)
Theorem explicit_status_switches_default_off
    (c : Z) (b : list byte) (bs : list (list byte)) (s : World) :
  let p := call (W_WriteHeader c);; write_all (b :: bs) in
  let '((results, w), s') := exec (through p NewResponseWriter) s in
  if (c =? 0)%Z then
    Status w = 200 ∧
    statuses_written (sink_events s') = (statuses_written (sink_events s) ++ [0; 200])%list
  else
    Status w = c ∧
    statuses_written (sink_events s') = (statuses_written (sink_events s) ++ [c])%list ∧
    (results, s') = exec p s.
Proof.
  intros p. unfold p.
  rewrite run_through_bind, run_through_call. cbn [serve].
  rewrite run_WriteHeader. cbn [fst snd].
  rewrite run_bind, run_call. cbn [exec_step fst snd].
  destruct (c =? 0)%Z eqn:Hc.
  - apply Z.eqb_eq in Hc. subst c.
    change {| status := 0; size := size NewResponseWriter |} with NewResponseWriter.
    rewrite write_all_fresh. cbn zeta. cbn [Status status fst snd].
    split; [reflexivity |].
    rewrite run_bind, run_call. cbn [exec_step fst snd].
    rewrite run_through_write_all_events. cbn [record sink_events].
    unfold statuses_written. rewrite !flat_map_app. cbn [flat_map].
    rewrite <- !app_assoc. reflexivity.
  - rewrite write_all_written by (unfold Written; cbn [status]; by rewrite Hc).
    cbn [Status status]. split; [reflexivity |]. split; [| by destruct (exec _ _)].
    rewrite run_through_write_all_events. cbn [record sink_events].
    unfold statuses_written. rewrite !flat_map_app. cbn [flat_map].
    by rewrite app_nil_r.
Qed.

(** X3. [Flush] on a fresh writer, called by a handler.  Over a sink that is
    an [http.Flusher], 200 is recorded and sent before the flush; over a sink
    that is not, nothing happens at all.  Behind a second [responseWriter] the
    type assertion always succeeds, so there the inner writer records and
    sends 200 even if the sink cannot flush. *)
Theorem Flush_on_fresh_writer (s : World) :
  exec (through (call W_Flush) NewResponseWriter) s =
    (if sink_Flusher host
     then ((tt, {| status := 200; size := 0 |}),
           record EvFlush (record (EvWriteHeader 200) s))
     else ((tt, NewResponseWriter), s)) ∧
  exec (through (through (call W_Flush) NewResponseWriter) NewResponseWriter) s =
    (if sink_Flusher host
     then (((tt, {| status := 200; size := 0 |}), {| status := 200; size := 0 |}),
           record EvFlush (record (EvWriteHeader 200) s))
     else (((tt, {| status := 200; size := 0 |}), {| status := 200; size := 0 |}),
           record (EvWriteHeader 200) s)).
Proof.
  split.
  - rewrite run_through_call. cbn [serve]. unfold Flush.
    rewrite run_bind, run_call. cbn [exec_step fst snd].
    destruct (sink_Flusher host) eqn:Hf; [| reflexivity].
    cbn. by rewrite Hf.
  - cbn. destruct (sink_Flusher host) eqn:Hf; cbn; by rewrite ?Hf.
Qed.

(** One call through a writer that recorded a status, over a sink that can
    flush, is the call itself. *)
Lemma serve_transparent {X : Type} (e : Op X) (w : responseWriter) (s : World) :
  Written w = true -> sink_Flusher host = true -> resets_status e = false ->
  (exec (serve e w) s).1.1 = (exec_step e s).1 ∧
  (exec (serve e w) s).2 = (exec_step e s).2 ∧
  Written (exec (serve e w) s).1.2 = true.
Proof.
  intros Hw Hf He. destruct e; cbn [serve].
  - done.
  - done.
  - cbn. cbn in He. unfold Written. cbn. by rewrite He.
  - rewrite run_Write_written by done. done.
  - cbn. by rewrite Hf.
  - unfold Flush. rewrite run_bind, run_call. cbn [exec_step fst snd]. rewrite Hw. cbn.
    rewrite Hf. cbn. by rewrite Hf.
  - done.
  - done.
  - done.
  - done.
Qed.

(** X4. Once a status is recorded the writer is a transparent proxy: a
    handler that never calls [WriteHeader(0)], over a sink that can flush,
    gets the same answers and leaves the same world as on the embedded writer
    itself, and the status stays recorded. *)
Theorem written_writer_is_transparent {A : Type} (p : Prog A) (w : responseWriter) (s : World) :
  Written w = true -> sink_Flusher host = true -> never_resets p ->
  (exec (through p w) s).1.1 = (exec p s).1 ∧
  (exec (through p w) s).2 = (exec p s).2 ∧
  Written (exec (through p w) s).1.2 = true.
Proof.
  intros Hw Hf. revert w s Hw. induction p as [a | X e k IH]; intros w s Hw Hp.
  - done.
  - destruct Hp as [He Hk].
    change (through (Vis e k) w)
      with (serve e w ≫= (fun xw => match xw with (x, w') => through (k x) w' end)).
    rewrite run_bind.
    destruct (serve_transparent e w s Hw Hf He) as (Hx & Hs & Hw').
    destruct (exec (serve e w) s) as [[x w'] s']. cbn [fst snd] in *.
    cbn [run]. destruct (exec_step e s) as [x0 s0]. cbn [fst snd] in *. subst x0 s0.
    by apply IH.
Qed.

Lemma wrap_int_range (z : Z) : int_min <= wrap_int z <= int_max.
Proof.
  unfold wrap_int, int_min, int_max.
  pose proof (Z.mod_pos_bound (z + 2 ^ 63) (2 ^ 64) ltac:(lia)). lia.
Qed.

Lemma counts_reported_app (evs evs' : list SinkEvent) :
  counts_reported (evs ++ evs') = (counts_reported evs ++ counts_reported evs')%list.
Proof. apply flat_map_app. Qed.

Lemma Zsum_app (l l' : list Z) : Zsum (l ++ l') = Zsum l + Zsum l'.
Proof. unfold Zsum. induction l as [| x l IH]; simpl; lia. Qed.

(** One call through a writer: the sink's events grow, and the size moves by
    the counts the sink reported. *)
Lemma serve_size {X : Type} (e : Op X) (w : responseWriter) (s : World) :
  int_min <= size w <= int_max ->
  ∃ evs,
    sink_events (exec (serve e w) s).2 = (sink_events s ++ evs)%list ∧
    size (exec (serve e w) s).1.2 = wrap_int (size w + Zsum (counts_reported evs)).
Proof.
  intros Hr.
  assert (Hnone : size w = wrap_int (size w + Zsum (counts_reported [])))
    by (cbn [counts_reported flat_map Zsum fold_right]; rewrite Z.add_0_r;
        by rewrite wrap_int_in_range).
  destruct e; cbn [serve].
  - exists [EvHeaderSet k v]. done.
  - exists []. cbn. by rewrite app_nil_r.
  - exists [EvWriteHeader s0]. done.
  - destruct (Written w) eqn:Hw.
    + rewrite run_Write_written by done. cbn zeta. cbn [fst snd record sink_events size].
      eexists [_]. split; [reflexivity |]. cbn. by rewrite Z.add_0_r.
    + rewrite run_Write_fresh by (by rewrite <- Hw). cbn zeta.
      cbn [fst snd record sink_events size].
      eexists [_; _]. rewrite <- app_assoc. split; [reflexivity |]. cbn.
      by rewrite Z.add_0_r.
  - exists []. cbn. by rewrite app_nil_r.
  - unfold Flush. rewrite run_bind, run_call. cbn [exec_step fst snd].
    destruct (sink_Flusher host) eqn:Hf.
    + destruct (Written w) eqn:Hw; cbn; rewrite Hf.
      * by exists [EvFlush].
      * exists [EvWriteHeader http_StatusOK; EvFlush]. cbn. by rewrite <- app_assoc.
    + exists []. cbn. by rewrite app_nil_r.
  - exists []. cbn. by rewrite app_nil_r.
  - exists []. cbn. by rewrite app_nil_r.
  - exists []. cbn. by rewrite app_nil_r.
  - exists []. cbn. by rewrite app_nil_r.
Qed.

Lemma through_size {A : Type} (p : Prog A) (w : responseWriter) (s : World) :
  int_min <= size w <= int_max ->
  ∃ evs,
    sink_events (exec (through p w) s).2 = (sink_events s ++ evs)%list ∧
    size (exec (through p w) s).1.2 = wrap_int (size w + Zsum (counts_reported evs)).
Proof.
  revert w s. induction p as [a | X e k IH]; intros w s Hr.
  - exists []. cbn. rewrite app_nil_r, Z.add_0_r. by rewrite wrap_int_in_range.
  - change (through (Vis e k) w)
      with (serve e w ≫= (fun xw => match xw with (x, w') => through (k x) w' end)).
    rewrite run_bind.
    destruct (serve_size e w s Hr) as (evs1 & Hev1 & Hsz1).
    destruct (exec (serve e w) s) as [[x w1] s1]. cbn [fst snd] in *.
    destruct (IH x w1 s1) as (evs2 & Hev2 & Hsz2).
    { rewrite Hsz1. apply wrap_int_range. }
    exists (evs1 ++ evs2)%list. split.
    + rewrite Hev2, Hev1. by rewrite <- app_assoc.
    + rewrite Hsz2, Hsz1, wrap_int_idem, counts_reported_app, Zsum_app.
      f_equal. lia.
Qed.

(** X5. Whatever the inner handler does, the size a fresh writer ends with is
    the sum, in Go's [int], of the byte counts the sink reported for the
    writes that reached it while the handler ran; the sink only gains
    events. *)
Theorem Size_counts_what_the_sink_reported {A : Type} (p : Prog A) (s : World) :
  let '((_, w), s') := exec (through p NewResponseWriter) s in
  ∃ evs,
    sink_events s' = (sink_events s ++ evs)%list ∧
    Size w = wrap_int (Zsum (counts_reported evs)).
Proof.
  destruct (through_size p NewResponseWriter s) as (evs & Hev & Hsz); [done |].
  destruct (exec (through p NewResponseWriter) s) as [[a w] s']. cbn [fst snd] in *.
  by exists evs.
Qed.

(** One call through two writers in the same state leaves them in the same
    state. *)
Lemma serve_nested {X : Type} (e : Op X) (w : responseWriter) (s : World) :
  (exec (through (serve e w) w) s).1.1.2 = (exec (through (serve e w) w) s).1.2.
Proof.
  destruct e; cbn [serve]; try reflexivity.
  - remember (exec (through (Write b w) w) s) as res eqn:Hres.
    unfold Write at 1 in Hres. destruct (Written w) eqn:Hw; cbn [negb] in Hres.
    + change (Ret ((), w) ≫= ?f) with (f ((), w)) in Hres. cbn beta iota in Hres.
      rewrite run_through_bind, run_through_call in Hres. cbn [serve] in Hres.
      rewrite run_Write_written in Hres by done. cbn zeta in Hres.
      cbn [fst snd] in Hres. destruct (sink_Write host _ b) in Hres. by subst res.
    + unfold WriteHeader at 1 in Hres.
      rewrite !run_through_bind, !run_through_call in Hres. cbn [serve] in Hres.
      rewrite run_WriteHeader in Hres. cbn [fst snd through run] in Hres.
      rewrite run_through_bind, run_through_call in Hres. cbn [serve] in Hres.
      rewrite run_Write_written in Hres by done. cbn zeta in Hres.
      cbn [fst snd] in Hres. destruct (sink_Write host _ b) in Hres. by subst res.
  - remember (exec (through (Flush w) w) s) as res eqn:Hres.
    unfold Flush at 1 in Hres.
    rewrite run_through_bind, run_through_call in Hres. cbn [serve run fst snd] in Hres.
    destruct (Written w) eqn:Hw; cbn [negb] in Hres.
    + change (Ret ((), w) ≫= ?f) with (f ((), w)) in Hres. cbn beta iota in Hres.
      rewrite run_through_bind, run_through_call in Hres. cbn [serve] in Hres.
      unfold Flush in Hres. rewrite !run_bind, !run_call in Hres.
      cbn [exec_step fst snd] in Hres. rewrite Hw in Hres.
      destruct (sink_Flusher host) eqn:Hf; cbn in Hres; rewrite ?Hf in Hres; by subst res.
    + unfold WriteHeader at 1 in Hres.
      rewrite !run_through_bind, !run_through_call in Hres. cbn [serve] in Hres.
      rewrite run_WriteHeader in Hres. cbn [fst snd through run] in Hres.
      rewrite run_through_bind, run_through_call in Hres. cbn [serve] in Hres.
      unfold Flush in Hres. rewrite !run_bind, !run_call in Hres.
      cbn [exec_step fst snd] in Hres.
      destruct (sink_Flusher host) eqn:Hf; cbn in Hres; rewrite ?Hf in Hres; by subst res.
Qed.

(** X6. Two recording writers, one inside the other and both fresh (or in
    the same state), end in the same state whatever the handler does: in a
    chain with two recording wrappers both report the same status and the same
    size. *)
Theorem nested_writers_agree {A : Type} (p : Prog A) (w : responseWriter) (s : World) :
  let '(((_, inner), outer), _) := exec (through (through p w) w) s in
  Status inner = Status outer ∧ Size inner = Size outer.
Proof.
  enough (H : (exec (through (through p w) w) s).1.1.2 =
              (exec (through (through p w) w) s).1.2).
  { destruct (exec (through (through p w) w) s) as [[[a inner] outer] s'].
    cbn [fst snd] in H. by subst. }
  revert w s. induction p as [a | X e k IH]; intros w s.
  - reflexivity.
  - change (through (Vis e k) w)
      with (serve e w ≫= (fun xw => match xw with (x, w') => through (k x) w' end)).
    rewrite run_through_bind.
    pose proof (serve_nested e w s) as Hstep.
    destruct (exec (through (serve e w) w) s) as [[[x w1] w2] s1].
    cbn [fst snd] in *. subst w2. apply IH.
Qed.

End WriterProperties.

Section WrapperProperties.

Variables (RequestIDHeader RequestContextHeader : string).
Variable CanonicalMIMEHeaderKey : string -> string.
Variable http_StatusText : Z -> string.
Variable host : Host.

Local Abbreviation exec := (run CanonicalMIMEHeaderKey host).
Local Abbreviation exec_step := (step CanonicalMIMEHeaderKey host).
Local Abbreviation audit_core :=
  (auditHandle RequestIDHeader RequestContextHeader CanonicalMIMEHeaderKey http_StatusText).
Local Abbreviation Audit' :=
  (Audit RequestIDHeader RequestContextHeader CanonicalMIMEHeaderKey http_StatusText).

Lemma through_http_Error_status (msg : string) (w : responseWriter) (s : World) :
  Status (exec (through (http_Error msg http_StatusInternalServerError) w) s).1.2 = 500.
Proof.
  unfold http_Error.
  rewrite !run_through_bind, !run_through_call. cbn [serve].
  rewrite !run_bind, !run_call. cbn [exec_step fst snd].
  rewrite !run_WriteHeader. cbn [fst snd].
  rewrite run_Write_written by done. reflexivity.
Qed.

Lemma through_Error_status (h : HTTPHandlerFunc) (r : Request) (w : responseWriter) (s : World) :
  (exec (through (Error h r) w) s).1.1 = (exec (through (h r) w) s).1.1 ∧
  ((exec (through (h r) w) s).1.1 ≠ None ->
   Status (exec (through (Error h r) w) s).1.2 = 500).
Proof.
  unfold Error, errorHandle. rewrite run_through_bind.
  destruct (exec (through (h r) w) s) as [[[e |] w1] s1]; cbn [fst snd]; [| done].
  rewrite run_through_bind. cbn [through run fst snd]. split; [done |]. intros _.
  apply through_http_Error_status.
Qed.

(** X7. Behind a recording writer, [Error] sends its response through that
    writer's [WriteHeader]: whenever the inner handler fails, the recorded
    status ends as 500, whatever the handler had recorded before, and [Log]
    around [Error] closes with the text of status 500. *)
Theorem Log_around_Error_reports_500 (h : HTTPHandlerFunc) (r : Request) (s : World) :
  (∀ w, let '((err, w'), _) := exec (through (Error h r) w) s in
        match err with
        | Some _ => Status w' = 500
        | None => True
        end) ∧
  let '(err, s') := exec (Log http_StatusText (Error h) r) s in
  match err with
  | Some _ =>
      ∃ lg sz elapsed,
        last (log_entries s') =
          Some (response_entry None lg (http_StatusText 500) sz elapsed)
  | None => True
  end.
Proof.
  split.
  - intros w. destruct (through_Error_status h r w s) as [Herr Hst].
    destruct (exec (through (Error h r) w) s) as [[[e |] w'] s']; cbn [fst snd] in *; [| done].
    apply Hst. by rewrite <- Herr.
  - unfold Log. rewrite run_logHandle. cbn zeta. cbn [emit log_entries].
    match goal with
    | |- context [exec (through (Error h ?r1) NewResponseWriter) ?s1] =>
        destruct (through_Error_status h r1 NewResponseWriter s1) as [Herr Hst];
        destruct (exec (through (Error h r1) NewResponseWriter) s1) as [[[e |] w'] s']
    end; cbn [fst snd] in *; [| done].
    rewrite last_snoc. rewrite Hst by (by rewrite <- Herr).
    eexists _, _, _. reflexivity.
Qed.

(** A handler that never writes sends no status and no body. *)
Lemma through_writes_nothing_sink {A : Type} (p : Prog A) (w : responseWriter) (s : World) :
  writes_nothing p ->
  statuses_written (sink_events (exec (through p w) s).2) = statuses_written (sink_events s) ∧
  bodies_written (sink_events (exec (through p w) s).2) = bodies_written (sink_events s).
Proof.
  revert w s. induction p as [a | X e k IH]; intros w s Hp; [done |].
  destruct Hp as [He Hk].
  change (through (Vis e k) w)
    with (serve e w ≫= (fun xw => match xw with (x, w') => through (k x) w' end)).
  rewrite run_bind.
  assert (Hstep :
    statuses_written (sink_events (exec (serve e w) s).2) = statuses_written (sink_events s) ∧
    bodies_written (sink_events (exec (serve e w) s).2) = bodies_written (sink_events s)).
  { destruct e; try discriminate He; cbn [serve]; rewrite ?run_bind, ?run_call;
      cbn [exec_step fst snd run]; try done.
    cbn [set_header sink_events]. unfold statuses_written, bodies_written.
    rewrite !flat_map_app. cbn [flat_map]. by rewrite !app_nil_r. }
  destruct (exec (serve e w) s) as [[x w'] s']. cbn [fst snd] in *.
  destruct Hstep as [<- <-]. by apply IH.
Qed.

Lemma statuses_written_app (evs evs' : list SinkEvent) :
  statuses_written (evs ++ evs') = (statuses_written evs ++ statuses_written evs')%list.
Proof. apply flat_map_app. Qed.

Lemma bodies_written_app (evs evs' : list SinkEvent) :
  bodies_written (evs ++ evs') = (bodies_written evs ++ bodies_written evs')%list.
Proof. apply flat_map_app. Qed.

(** X8. The [ServeHTTP] methods of [ErrorHandler] and [LogHandler] are
    [Wrap] with the one wrapper [Error] or [Log]; [AuditHandler.ServeHTTP]
    is not [Wrap] with [Audit], it runs the audit core without [Error] around
    it.  With a handler that writes nothing, no status and no body reach the
    sink even when the handler fails, where the same handler behind
    [Wrap h [Audit]] is answered with a 500. *)
Theorem AuditHandler_does_not_translate_errors (h : HTTPHandlerFunc) (r : Request) (s : World) :
  (∀ r', writes_nothing (h r')) ->
  let served := (exec (AuditHandler_ServeHTTP RequestIDHeader RequestContextHeader
                         CanonicalMIMEHeaderKey http_StatusText h r) s).2 in
  let wrapped := (exec (Wrap h [Audit'] r) s).2 in
  ErrorHandler_ServeHTTP h = Wrap h [Error] ∧
  LogHandler_ServeHTTP http_StatusText h = Wrap h [Log http_StatusText] ∧
  served = (exec (audit_core h r) s).2 ∧
  statuses_written (sink_events served) = statuses_written (sink_events s) ∧
  bodies_written (sink_events served) = bodies_written (sink_events s) ∧
  match (exec (audit_core h r) s).1 with
  | Some e =>
      statuses_written (sink_events wrapped) =
        (statuses_written (sink_events s) ++ [500])%list
  | None => wrapped = served
  end.
Proof.
  intros Hh served wrapped.
  assert (Hserved : served = (exec (audit_core h r) s).2).
  { unfold served, AuditHandler_ServeHTTP. by rewrite run_bind. }
  assert (Hsink :
    statuses_written (sink_events (exec (audit_core h r) s).2) =
      statuses_written (sink_events s) ∧
    bodies_written (sink_events (exec (audit_core h r) s).2) =
      bodies_written (sink_events s)).
  { rewrite run_auditHandle. cbn zeta. cbn [snd emit tick sink_events].
    match goal with
    | |- context [exec (through (h ?r1) NewResponseWriter) ?s1] =>
        destruct (through_writes_nothing_sink (h r1) NewResponseWriter s1 (Hh r1))
          as [Hst Hbd];
        destruct (exec (through (h r1) NewResponseWriter) s1) as [[[e |] w'] s']
    end; cbn [fst snd emit sink_events] in *; rewrite Hst, Hbd;
      cbn [set_header sink_events next_uuid tick];
      rewrite !statuses_written_app, !bodies_written_app; cbn; by rewrite !app_nil_r. }
  split; [reflexivity |]. split; [reflexivity |].
  rewrite Hserved. split; [done |]. split; [apply Hsink |]. split; [apply Hsink |].
  unfold wrapped, Wrap, Handler. cbn [fold_left]. rewrite run_bind. cbn [snd run].
  unfold Audit, Error. rewrite run_errorHandle.
  destruct (exec (audit_core h r) s) as [[e |] s0]; cbn [fst snd] in *; [| done].
  destruct (http_Error_effect CanonicalMIMEHeaderKey host (err_Error e)
              http_StatusInternalServerError s0) as (n & werr & Hev & _).
  rewrite Hev, statuses_written_app. destruct Hsink as [-> _]. reflexivity.
Qed.

(** X9. The entries [Log] and the audit core add around their inner handler:
    the request entry before it runs, and after it an entry at error severity
    exactly when it returned an error, then the response entry.  The audit
    core's entries are attributed to an auditor that carries the trace id and
    the correlation id read from the request. *)
Theorem Log_and_Audit_entries (h : HTTPHandlerFunc) (r : Request) (s : World) :
  let tid := uuid_String host (uuid_count s) in
  let cid := Header_Get CanonicalMIMEHeaderKey (ReqHeader r) RequestContextHeader in
  (∃ s1,
     let inner := exec (through (h (log_request tid r)) NewResponseWriter) s1 in
     let elapsed := time_at host (clock_ticks inner.2) - time_at host (clock_ticks s) in
     log_entries s1 =
       (log_entries s ++ [request_entry None (log_logger tid r) "haki.hhtp.Request"])%list ∧
     log_entries (exec (Log http_StatusText h r) s).2 =
       (log_entries inner.2 ++
        error_entries None (log_logger tid r) inner.1.1 ++
        [response_entry None (log_logger tid r)
           (http_StatusText (Status inner.1.2)) (Size inner.1.2) elapsed])%list) ∧
  (∃ s1,
     let a := audit_auditor tid cid r in
     let inner := exec (through (h (WithContext r (audit_context tid tid cid r)))
                          NewResponseWriter) s1 in
     let elapsed := time_at host (clock_ticks inner.2) - time_at host (clock_ticks s) in
     TID a = tid ∧ CID a = cid ∧
     log_entries s1 =
       (log_entries s ++ [request_entry (Some a) (Logger_ a) "haki.http.Request"])%list ∧
     log_entries (exec (audit_core h r) s).2 =
       (log_entries inner.2 ++
        error_entries (Some a) (Logger_ a) inner.1.1 ++
        [response_entry (Some a) (Logger_ a)
           (http_StatusText (Status inner.1.2)) (Size inner.1.2) elapsed])%list).
Proof.
  intros tid cid. split.
  - unfold Log. rewrite run_logHandle. cbn zeta. fold tid.
    exists (emit (request_entry None (log_logger tid r) "haki.hhtp.Request")
              (tick (next_uuid s))).
    cbn zeta. split; [reflexivity |].
    unfold request_entry.
    destruct (exec (through _ NewResponseWriter) _) as [[[e |] w'] s']; cbn [fst snd];
      cbn [emit log_entries tick error_entries]; rewrite <- ?app_assoc; reflexivity.
  - rewrite run_auditHandle. cbn zeta. fold tid cid.
    exists (emit (request_entry (Some (audit_auditor tid cid r)) (audit_logger tid cid r)
                    "haki.http.Request")
              (set_header CanonicalMIMEHeaderKey RequestContextHeader cid
                 (set_header CanonicalMIMEHeaderKey RequestIDHeader tid
                    (next_uuid (tick s))))).
    cbn zeta. split; [reflexivity |]. split; [reflexivity |].
    split; [reflexivity |]. unfold request_entry. cbn [Logger_ audit_auditor].
    destruct (exec (through _ NewResponseWriter) _) as [[[e |] w'] s']; cbn [fst snd];
      cbn [emit log_entries tick error_entries]; rewrite <- ?app_assoc; reflexivity.
Qed.

(** No program takes ids back. *)
Lemma uuid_count_grows {A : Type} (p : Prog A) (s : World) :
  (uuid_count s <= uuid_count (exec p s).2)%nat.
Proof.
  revert s. induction p as [a | X e k IH]; intros s; [done |].
  cbn [run]. destruct (exec_step e s) as [x s1] eqn:Hstep.
  etransitivity; [| apply IH].
  destruct e; cbn in Hstep; injection Hstep as <- <-; cbn; try lia.
  destruct (sink_Flusher host); cbn; lia.
Qed.

(** X10. [Log] and the audit core take their trace id as the first thing
    they do and never give it back: after a request the id counter is past the
    one the request used.  With a generator that never repeats itself, the
    next request therefore gets another trace id. *)
Theorem next_request_gets_another_trace_id (h : HTTPHandlerFunc) (r : Request) (s : World) :
  (∀ m n, uuid_String host m = uuid_String host n -> m = n) ->
  let tid := uuid_String host (uuid_count s) in
  let after_log := (exec (Log http_StatusText h r) s).2 in
  let after_audit := (exec (Audit' h r) s).2 in
  (uuid_count s < uuid_count after_log)%nat ∧
  (uuid_count s < uuid_count after_audit)%nat ∧
  uuid_String host (uuid_count after_log) ≠ tid ∧
  uuid_String host (uuid_count after_audit) ≠ tid.
Proof.
  intros Hinj tid after_log after_audit.
  assert (Hlog : (uuid_count s < uuid_count after_log)%nat).
  { unfold after_log, Log. rewrite run_logHandle. cbn zeta. cbn [snd emit tick uuid_count].
    match goal with
    | |- context [exec (through (h ?r1) NewResponseWriter) ?s1] =>
        pose proof (uuid_count_grows (through (h r1) NewResponseWriter) s1) as Hgrow;
        destruct (exec (through (h r1) NewResponseWriter) s1) as [[[e |] w'] s']
    end; cbn in *; lia. }
  assert (Haudit : (uuid_count s < uuid_count after_audit)%nat).
  { unfold after_audit, Audit, Error. rewrite run_errorHandle, run_auditHandle.
    cbn zeta. cbn [fst snd].
    match goal with
    | |- context [exec (through (h ?r1) NewResponseWriter) ?s1] =>
        pose proof (uuid_count_grows (through (h r1) NewResponseWriter) s1) as Hgrow;
        destruct (exec (through (h r1) NewResponseWriter) s1) as [[[e |] w'] s']
    end; cbn [fst snd] in *.
    - match goal with
      | |- context [exec (http_Error ?m ?c) ?s0] =>
          destruct (http_Error_effect CanonicalMIMEHeaderKey host m c s0)
            as (_ & _ & _ & _ & _ & Hu & _)
      end.
      rewrite Hu. cbn in *. lia.
    - cbn in *. lia. }
  repeat split; try assumption.
  - intros Heq. apply Hinj in Heq. lia.
  - intros Heq. apply Hinj in Heq. lia.
Qed.

(** X11. What the inner handler of [Audit] finds in the request-scoped
    storage besides the ids: the fixed anonymous identity with its token, its
    ID and its name, the logger, and an auditor that carries the correlation id
    read from the request header. *)
Theorem Audit_stores_anonymous_identity (r : Request) (s : World) :
  let tid := uuid_String host (uuid_count s) in
  let cid := Header_Get CanonicalMIMEHeaderKey (ReqHeader r) RequestContextHeader in
  ∃ r1,
    (∃ s1, ∀ h, (exec (Audit' h r) s).1 =
                (exec (through (h r1) NewResponseWriter) s1).1.1) ∧
    context_Value (ctx r1) ContextKeys_TOKEN = Some (VString "tanonymous") ∧
    (∃ identity,
       context_Value (ctx r1) ContextKeys_IDENTITY = Some (VIdentity identity) ∧
       Token identity = "tanonymous" ∧
       Value identity !! "ID" = Some "uanonymous" ∧
       Value identity !! "Name" = Some "User Anonymous" ∧
       Value identity !! "Email" = None) ∧
    (∃ auditor,
       context_Value (ctx r1) ContextKeys_AUDITOR = Some (VAuditor auditor) ∧
       TID auditor = tid ∧ CID auditor = cid ∧
       context_Value (ctx r1) ContextKeys_LOG = Some (VLogger (Logger_ auditor))) ∧
    Method r1 = Method r ∧ URL_Path r1 = URL_Path r ∧ ReqHeader r1 = ReqHeader r.
Proof.
  intros tid cid. exists (WithContext r (audit_context tid tid cid r)).
  split.
  - exists (emit (request_entry (Some (audit_auditor tid cid r)) (audit_logger tid cid r)
                    "haki.http.Request")
              (set_header CanonicalMIMEHeaderKey RequestContextHeader cid
                 (set_header CanonicalMIMEHeaderKey RequestIDHeader tid
                    (next_uuid (tick s))))).
    intros h. unfold Audit, Error. rewrite run_errorHandle, run_auditHandle.
    cbn zeta. cbn [fst]. fold tid cid.
    destruct (exec (through _ NewResponseWriter) _).1.1; reflexivity.
  - split; [reflexivity |]. split.
    + exists anonymous. repeat split.
    + split; [| done]. exists (audit_auditor tid cid r). repeat split.
Qed.

End WrapperProperties.

Section RespondProperties.

Variables (ContentTypeHeader AcceptHeader json_ContentType : string).
Variables (ErrInvalidContentType ErrInvalidAccept : error).
Variable CanonicalMIMEHeaderKey : string -> string.
Variable Target : Type.
Variable Encoder_buffer : Target -> list byte + error.
Variable Decoder_Decode : list byte -> Target -> option error * (list byte * Target).
Variable host : Host.

Local Abbreviation exec := (run CanonicalMIMEHeaderKey host).
Local Abbreviation JSON' := (Respond.JSON ContentTypeHeader json_ContentType Target Encoder_buffer).
Local Abbreviation Bytes' := (Respond.Bytes ContentTypeHeader).
Local Abbreviation WriteByAccept' :=
  (Respond.WriteByAccept ContentTypeHeader AcceptHeader json_ContentType ErrInvalidAccept
     CanonicalMIMEHeaderKey Target Encoder_buffer).
Local Abbreviation ReadByContentType' :=
  (ReadByContentType ContentTypeHeader json_ContentType ErrInvalidContentType
     CanonicalMIMEHeaderKey Target Decoder_Decode).

(** X12. [JSON] sets the content type and sends the status before it
    encodes.  When the value cannot be encoded, the status has been sent all
    the same, no body follows and the encoder's error is returned; otherwise
    the encoding goes out in one write and the error of that write, if any, is
    returned. *)
Theorem JSON_sends_status_before_encoding (status : Z) (result : Target) (s : World) :
  let '(err, s') := exec (JSON' status result) s in
  sink_header s' = Header_Set CanonicalMIMEHeaderKey (sink_header s)
                     ContentTypeHeader json_ContentType ∧
  match Encoder_buffer result with
  | inr e =>
      err = Some e ∧
      sink_events s' =
        (sink_events s ++ [EvHeaderSet ContentTypeHeader json_ContentType;
                           EvWriteHeader status])%list
  | inl b =>
      ∃ n,
        (n, err) = sink_Write host
                     (sink_events s ++ [EvHeaderSet ContentTypeHeader json_ContentType;
                                        EvWriteHeader status])%list b ∧
        sink_events s' =
          (sink_events s ++ [EvHeaderSet ContentTypeHeader json_ContentType;
                             EvWriteHeader status; EvWrite b n err])%list
  end.
Proof.
  unfold Respond.JSON, Respond.json_Marshal.
  rewrite !run_bind, !run_call. cbn [step fst snd].
  destruct (Encoder_buffer result) as [b | e].
  - rewrite !run_bind, !run_call. cbn [step fst snd set_header record sink_events sink_header].
    rewrite <- !app_assoc. cbn [app].
    destruct (sink_Write host _ b) as [n [werr |]];
      cbn [fst snd run record sink_events sink_header set_header];
      rewrite <- ?app_assoc; cbn [app]; (split; [done |]); by exists n.
  - cbn [run fst snd set_header record sink_events sink_header].
    rewrite <- !app_assoc. done.
Qed.

(** X13. [Bytes] behind a fresh recording writer, with a status other than
    0: the status recorded is the one given and it is the only one sent, the
    size is the count the sink reported for the one write, and the error
    returned is the sink's. *)
Theorem Bytes_through_recording_writer (code : Z) (result : list byte) (s : World) :
  code ≠ 0 ->
  let '((err, w), s') := exec (through (Bytes' code result) NewResponseWriter) s in
  ∃ n,
    (n, err) = sink_Write host
                 (sink_events s ++ [EvHeaderSet ContentTypeHeader "application/octet-stream";
                                    EvWriteHeader code])%list result ∧
    Status w = code ∧ Size w = wrap_int n ∧
    sink_events s' =
      (sink_events s ++ [EvHeaderSet ContentTypeHeader "application/octet-stream";
                         EvWriteHeader code; EvWrite result n err])%list.
Proof.
  intros Hstatus. unfold Respond.Bytes.
  rewrite !run_through_bind, !run_through_call. cbn [serve].
  rewrite !run_bind, !run_call. cbn [step fst snd].
  rewrite run_WriteHeader. cbn [run fst snd size].
  rewrite run_Write_written
    by (unfold Written; cbn [status]; by apply negb_true_iff, Z.eqb_neq).
  cbn zeta. cbn [fst snd set_header record sink_events status size].
  rewrite <- !app_assoc. cbn [app].
  destruct (sink_Write host _ result) as [n [werr |]]; cbn [fst snd through run];
    exists n; repeat split;
    cbn [record set_header sink_events]; by rewrite <- !app_assoc.
Qed.

(** X14. [WriteByAccept] is [JSON] exactly when the request's Accept header
    contains the JSON content type as a substring.  Otherwise it returns the
    unsupported-accept error without a single call: nothing is set, sent or
    encoded, in whatever world and behind whatever writer. *)
Theorem WriteByAccept_dispatch (r : Request) (status : Z) (result : Target) :
  let accept := Header_Get CanonicalMIMEHeaderKey (ReqHeader r) AcceptHeader in
  let json_in := ∃ a b, accept = a +:+ json_ContentType +:+ b in
  (json_in ↔ WriteByAccept' r status result = JSON' status result) ∧
  (¬ json_in ↔ WriteByAccept' r status result = Ret (Some ErrInvalidAccept)) ∧
  (¬ json_in ->
   ∀ w s, exec (through (WriteByAccept' r status result) w) s =
          ((Some ErrInvalidAccept, w), s)).
Proof.
  intros accept json_in.
  assert (Hdec : strings_Contains accept json_ContentType = true ↔ json_in)
    by apply strings_Contains_spec.
  unfold Respond.WriteByAccept. fold accept.
  destruct (strings_Contains accept json_ContentType).
  - assert (Hin : json_in) by (by apply Hdec).
    split; [done |]. split; [| done]. split; [done |].
    unfold Respond.JSON. discriminate.
  - assert (Hout : ¬ json_in) by (intros Hin; apply Hdec in Hin; discriminate).
    split; [| done]. split; [done |]. unfold Respond.JSON. discriminate.
Qed.

(** X15. A request without the header is refused on both sides, as long as
    the registered JSON content type is not the empty string:
    [ReadByContentType] without Content-Type leaves body and target alone and
    [WriteByAccept] without Accept makes no call. *)
Theorem negotiation_without_header_is_refused
    (r : Request) (body : BodyReader) (data : Target) (status : Z) (result : Target) :
  json_ContentType ≠ EmptyString ->
  (ReqHeader r !! CanonicalMIMEHeaderKey ContentTypeHeader = None ->
   ReadByContentType' r body data = (Some ErrInvalidContentType, (body, data))) ∧
  (ReqHeader r !! CanonicalMIMEHeaderKey AcceptHeader = None ->
   WriteByAccept' r status result = Ret (Some ErrInvalidAccept)).
Proof.
  intros Hjson.
  assert (Hempty : strings_Contains EmptyString json_ContentType = false).
  { destruct json_ContentType; [done | reflexivity]. }
  split; intros Hnone.
  - unfold ReadByContentType, Header_Get. by rewrite Hnone, Hempty.
  - unfold Respond.WriteByAccept, Header_Get. by rewrite Hnone, Hempty.
Qed.

(** X16. [Err] writes the 500 response and returns the error it was given,
    so a handler that ends with [Err] inside [Error] gets its response written
    twice: two statuses and two bodies reach the sink. *)
Theorem Err_inside_Error_writes_twice (e : error) (r : Request) (s : World) :
  let body := err_Error e +:+ newline in
  let once := exec (Respond.Err e) s in
  let twice := exec (Error (fun _ => Respond.Err e) r) s in
  once.1 = Some e ∧ twice.1 = Some e ∧
  statuses_written (sink_events once.2) =
    (statuses_written (sink_events s) ++ [500])%list ∧
  bodies_written (sink_events once.2) =
    (bodies_written (sink_events s) ++ [body])%list ∧
  statuses_written (sink_events twice.2) =
    (statuses_written (sink_events s) ++ [500; 500])%list ∧
  bodies_written (sink_events twice.2) =
    (bodies_written (sink_events s) ++ [body; body])%list.
Proof.
  intros body once twice.
  assert (Honce : once = (Some e, (exec (http_Error (err_Error e)
                                          http_StatusInternalServerError) s).2)).
  { unfold once, Respond.Err. by rewrite run_bind. }
  assert (Htwice : twice = (Some e, (exec (http_Error (err_Error e)
                                            http_StatusInternalServerError) once.2).2)).
  { unfold twice, Error. rewrite run_errorHandle. fold once. by rewrite Honce. }
  destruct (http_Error_effect CanonicalMIMEHeaderKey host (err_Error e)
              http_StatusInternalServerError s) as (n & werr & Hev & _).
  destruct (http_Error_effect CanonicalMIMEHeaderKey host (err_Error e)
              http_StatusInternalServerError once.2) as (n' & werr' & Hev' & _).
  rewrite Htwice. cbn [fst snd]. rewrite Hev'. rewrite Honce. cbn [fst snd]. rewrite Hev.
  rewrite !statuses_written_app, !bodies_written_app.
  unfold error_response_events, statuses_written, bodies_written. cbn [flat_map app].
  rewrite !string_of_list_byte_of_string, <- !app_assoc. done.
Qed.

End RespondProperties.

(** * Concrete instances of the further properties *)

Lemma String_length_append (a b : string) :
  String.length (a +:+ b) = (String.length a + String.length b)%nat.
Proof. induction a as [| c a IH]; simpl; [reflexivity | by rewrite IH]. Qed.

Lemma quiet_host_id_length (n : nat) :
  String.length (uuid_String quiet_host n) = (6 + n)%nat.
Proof.
  cbn [uuid_String quiet_host]. rewrite String_length_append. cbn [String.length].
  do 6 f_equal.
  induction n as [| n IH]; [reflexivity |].
  cbn [replicate]. destruct n as [| n]; [reflexivity |].
  cbn [replicate String.concat] in *. rewrite !String_length_append, IH. reflexivity.
Qed.

Lemma quiet_host_ids_distinct (m n : nat) :
  uuid_String quiet_host m = uuid_String quiet_host n -> m = n.
Proof.
  intros H. apply (f_equal String.length) in H.
  rewrite !quiet_host_id_length in H. lia.
Qed.

(** A handler that writes and flushes, behind a writer that recorded 200. *)
Lemma written_writer_is_transparent_witness :
  Written recorded_200 = true ∧ sink_Flusher quiet_host = true ∧
  never_resets (writes_ok get_request) ∧
  (run id quiet_host (through (writes_ok get_request) recorded_200) fresh_world).1.1 =
    (run id quiet_host (writes_ok get_request) fresh_world).1 ∧
  (run id quiet_host (through (writes_ok get_request) recorded_200) fresh_world).2 =
    (run id quiet_host (writes_ok get_request) fresh_world).2.
Proof.
  assert (Hw : Written recorded_200 = true) by reflexivity.
  assert (Hf : sink_Flusher quiet_host = true) by reflexivity.
  assert (Hp : never_resets (writes_ok get_request)) by (simpl; repeat split).
  split; [exact Hw |]. split; [exact Hf |]. split; [exact Hp |].
  destruct (written_writer_is_transparent id quiet_host (writes_ok get_request)
              recorded_200 fresh_world Hw Hf Hp) as (Hres & Hworld & _).
  split; [exact Hres | exact Hworld].
Defined.

(** A failing handler that writes nothing, served by [AuditHandler] and
    behind [Wrap] with [Audit]. *)
Lemma AuditHandler_does_not_translate_errors_witness :
  (∀ r', writes_nothing (fails_with_boom r')) ∧
  statuses_written
    (sink_events
       (run id quiet_host
          (AuditHandler_ServeHTTP "X-Request-Id" "X-Request-Context" id some_StatusText
             fails_with_boom get_request) fresh_world).2) =
    statuses_written (sink_events fresh_world) ∧
  statuses_written
    (sink_events (run id quiet_host (Wrap fails_with_boom [some_Audit] get_request)
                    fresh_world).2) =
    (statuses_written (sink_events fresh_world) ++ [500])%list.
Proof.
  assert (Hh : ∀ r', writes_nothing (fails_with_boom r')) by (intros r'; exact I).
  split; [exact Hh |].
  destruct (AuditHandler_does_not_translate_errors "X-Request-Id" "X-Request-Context" id
              some_StatusText quiet_host fails_with_boom get_request fresh_world Hh)
    as (_ & _ & _ & Hserved & _ & Hwrapped).
  split; [exact Hserved | exact Hwrapped].
Defined.

(** Two requests in a row on a host whose ids are all different. *)
Lemma next_request_gets_another_trace_id_witness :
  (∀ m n, uuid_String quiet_host m = uuid_String quiet_host n -> m = n) ∧
  uuid_String quiet_host
    (uuid_count (run id quiet_host (some_Audit does_nothing get_request) fresh_world).2) ≠
  uuid_String quiet_host (uuid_count fresh_world).
Proof.
  split; [exact quiet_host_ids_distinct |].
  destruct (next_request_gets_another_trace_id "X-Request-Id" "X-Request-Context" id
              some_StatusText quiet_host does_nothing get_request fresh_world
              quiet_host_ids_distinct) as (_ & _ & _ & Hne).
  exact Hne.
Defined.

(** Three bytes with status 201. *)
Lemma Bytes_through_recording_writer_witness :
  201 ≠ 0 ∧
  Status (run id quiet_host
            (through (Respond.Bytes "Content-Type" 201 [Byte.x01; Byte.x02; Byte.x03])
               NewResponseWriter) fresh_world).1.2 = 201 ∧
  Size (run id quiet_host
          (through (Respond.Bytes "Content-Type" 201 [Byte.x01; Byte.x02; Byte.x03])
             NewResponseWriter) fresh_world).1.2 = 3.
Proof.
  assert (Hcode : 201 ≠ 0) by discriminate.
  split; [exact Hcode |].
  pose proof (Bytes_through_recording_writer "Content-Type" id quiet_host 201
                [Byte.x01; Byte.x02; Byte.x03] fresh_world Hcode) as W.
  destruct (run id quiet_host
              (through (Respond.Bytes "Content-Type" 201 [Byte.x01; Byte.x02; Byte.x03])
                 NewResponseWriter) fresh_world) as [[err w] s'].
  destruct W as (n & Hn & Hstatus & Hsize & _).
  cbn [fst snd]. split; [exact Hstatus |].
  rewrite Hsize. injection Hn as -> _. reflexivity.
Defined.

(** Requests without Content-Type and without Accept. *)
Lemma negotiation_without_header_is_refused_witness :
  "application/json" ≠ EmptyString ∧
  ReqHeader get_request !! id "Content-Type" = None ∧
  ReadByContentType "Content-Type" "application/json" boom id nat
    (fun rest data => (None, (rest, data))) get_request (mkBodyReader [Byte.x7b] 0) 0%nat =
    (Some boom, (mkBodyReader [Byte.x7b] 0, 0%nat)) ∧
  Respond.WriteByAccept "Content-Type" "Accept" "application/json" boom id nat
    (fun _ => inl [Byte.x7b]) get_request 200 0%nat = Ret (Some boom).
Proof.
  assert (Hjson : "application/json" ≠ EmptyString) by discriminate.
  assert (Hnone : ReqHeader get_request !! id "Content-Type" = None) by reflexivity.
  split; [exact Hjson |]. split; [exact Hnone |].
  destruct (negotiation_without_header_is_refused "Content-Type" "Accept"
              "application/json" boom boom id nat (fun _ => inl [Byte.x7b])
              (fun rest data => (None, (rest, data))) get_request
              (mkBodyReader [Byte.x7b] 0) 0%nat 200 0%nat Hjson) as [Hread Hwrite].
  split; [exact (Hread Hnone) | exact (Hwrite eq_refl)].
Defined.
